(** * publish.py: Markdown to HTML essay converter

    A shallow embedding of [publish.py] and the properties of its
    title resolution, front-matter removal, substitution pipeline,
    paragraph wrapping and output-file naming.

    Text is a list of 8-bit characters.  The operations of the Python
    runtime that the program calls ([str.lower], [str.title],
    [str.strip], the whitespace class of [re]) are modelled on the ASCII
    repertoire: characters above 127 have no case and are not
    whitespace.  Regular expressions are interpreted by a backtracking
    matcher with the leftmost, greedy/lazy semantics of Python's [re]. *)

From Stdlib Require Import String Ascii Bool Arith Lia List.
Import ListNotations.

Set Implicit Arguments.

Local Open Scope list_scope.
Local Open Scope bool_scope.

(** ** Text *)

Definition str := list ascii.

(** A literal of the source. *)
Definition L (s : string) : str := list_ascii_of_string s.

Definition nl : ascii := "010"%char.
Definition dquote : ascii := "034"%char.

Definition code (c : ascii) : nat := nat_of_ascii c.

Definition chr_eqb (a b : ascii) : bool := Ascii.eqb a b.

Arguments chr_eqb : simpl never.

Fixpoint str_eqb (a b : str) : bool :=
  match a, b with
  | [], [] => true
  | x :: a', y :: b' => chr_eqb x y && str_eqb a' b'
  | _, _ => false
  end.

Definition between (lo hi c : ascii) : bool :=
  (code lo <=? code c) && (code c <=? code hi).

(** ** The Python runtime, as far as the program uses it *)
Module Py.

(** [str.isspace] on one character: TAB, LF, VT, FF, CR, the four
    information separators FS, GS, RS, US, and the blank. *)
Definition is_space (c : ascii) : bool :=
  let n := code c in
  ((9 <=? n) && (n <=? 13)) || ((28 <=? n) && (n <=? 31)) || (n =? 32).

Definition is_upper (c : ascii) : bool := between "A" "Z" c.
Definition is_lower (c : ascii) : bool := between "a" "z" c.
Definition is_digit (c : ascii) : bool := between "0" "9" c.
Definition is_cased (c : ascii) : bool := is_upper c || is_lower c.

Definition lower_chr (c : ascii) : ascii :=
  if is_upper c then ascii_of_nat (code c + 32) else c.

Definition upper_chr (c : ascii) : ascii :=
  if is_lower c then ascii_of_nat (code c - 32) else c.

(** [s.lower()] *)
Definition lower (s : str) : str := map lower_chr s.

(** [s.title()]: the first cased character after an uncased one is put
    in upper case, every other cased character in lower case.  Only
    the ASCII letters are cased here.  On cased characters outside
    ASCII Python applies the full Unicode case mapping, which may
    replace one character by several; nothing below relies on the
    length of the result. *)
Fixpoint title_from (previous_is_cased : bool) (s : str) : str :=
  match s with
  | [] => []
  | c :: s' =>
      (if previous_is_cased then lower_chr c else upper_chr c)
        :: title_from (is_cased c) s'
  end.

Definition title (s : str) : str := title_from false s.

(** [s.replace(old, new)] for one-character [old] and [new]. *)
Definition replace (old new : ascii) (s : str) : str :=
  map (fun c => if chr_eqb c old then new else c) s.

Fixpoint lstrip (s : str) : str :=
  match s with
  | c :: s' => if is_space c then lstrip s' else s
  | [] => []
  end.

Definition rstrip (s : str) : str := rev (lstrip (rev s)).

(** [s.strip()] *)
Definition strip (s : str) : str := rstrip (lstrip s).

(** [s.startswith(p)] *)
Fixpoint startswith (p s : str) : bool :=
  match p, s with
  | [], _ => true
  | a :: p', b :: s' => chr_eqb a b && startswith p' s'
  | _ :: _, [] => false
  end.

(** [sep.join(parts)] *)
Fixpoint join (sep : str) (parts : list str) : str :=
  match parts with
  | [] => []
  | [p] => p
  | p :: ps => p ++ sep ++ join sep ps
  end.

(** [s.rfind(c)] as an option: the index of the last [c] in [s]. *)
Fixpoint rfind (c : ascii) (s : str) : option nat :=
  match s with
  | [] => None
  | x :: s' =>
      match rfind c s' with
      | Some i => Some (S i)
      | None => if chr_eqb x c then Some 0 else None
      end
  end.

(** [s.split(c)] for a one-character separator. *)
Fixpoint split_chr (c : ascii) (s : str) : list str :=
  match s with
  | [] => [[]]
  | x :: s' =>
      if chr_eqb x c then [] :: split_chr c s'
      else
        match split_chr c s' with
        | p :: ps => (x :: p) :: ps
        | [] => [[x]]
        end
  end.

Definition is_dot_or_empty (part : str) : bool :=
  match part with
  | [] => true
  | [c] => chr_eqb c "."
  | _ => false
  end.

(** [Path(p).name]: the last component of a POSIX path; empty
    components and single dots do not count. *)
Definition path_name (p : str) : str :=
  last (filter (fun part => negb (is_dot_or_empty part)) (split_chr "/" p)) [].

(** [Path(p).stem]: the final component without its last suffix; a
    dot in first or last position does not start a suffix. *)
Definition path_stem (p : str) : str :=
  let name := path_name p in
  match rfind "." name with
  | Some i =>
      if (0 <? i) && (i <? length name - 1) then firstn i name else name
  | None => name
  end.

(** [dir / name] *)
Definition path_join (dir name : str) : str := dir ++ "/"%char :: name.

End Py.

(** ** Regular expressions: the fragment of [re] the program uses *)
Module Re.

Record flags := Flags { MULTILINE : bool; DOTALL : bool }.

Definition no_flags := Flags false false.
Definition multiline := Flags true false.
Definition dotall := Flags false true.

(** Members of a bracketed set. *)
Inductive item :=
| Chr (c : ascii)              (* a character *)
| Range (lo hi : ascii)        (* lo-hi *)
| Space.                       (* \s *)

Definition item_ok (i : item) (c : ascii) : bool :=
  match i with
  | Chr x => chr_eqb c x
  | Range lo hi => between lo hi c
  | Space => Py.is_space c
  end.

(** What consumes exactly one character. *)
Inductive atom :=
| Lit (c : ascii)              (* the character itself *)
| Dot                          (* . *)
| Ws                           (* \s *)
| NotIn (items : list item).   (* [^...] *)

Definition atom_ok (fl : flags) (a : atom) (c : ascii) : bool :=
  match a with
  | Lit x => chr_eqb c x
  | Dot => DOTALL fl || negb (chr_eqb c nl)
  | Ws => Py.is_space c
  | NotIn items => negb (existsb (fun i => item_ok i c) items)
  end.

(** Patterns.  Every quantifier of the program's patterns applies to a
    single atom: [Rep a min greedy] is [a*], [a+] and their lazy forms
    [a*?], [a+?] according to [min] and [greedy]. *)
Inductive regex :=
| Emp
| Bol                                        (* ^ *)
| Eol                                        (* $ *)
| One (a : atom)
| Rep (a : atom) (min : nat) (greedy : bool)
| Grp (n : nat) (r : regex)                  (* capture group number n *)
| Seq (r1 r2 : regex).

(** A run of literal characters. *)
Fixpoint lit (s : str) : regex :=
  match s with
  | [] => Emp
  | c :: s' => Seq (One (Lit c)) (lit s')
  end.

Definition seq (rs : list regex) : regex := fold_right Seq Emp rs.

(** Captured groups, most recent binding first. *)
Definition caps := list (nat * str).

Fixpoint group (n : nat) (g : caps) : str :=
  match g with
  | [] => []
  | (k, v) :: g' => if k =? n then v else group n g'
  end.

(** [^]: at the start of the text, and under MULTILINE after each
    newline.  [prev] is the character before the current position. *)
Definition at_bol (fl : flags) (prev : option ascii) : bool :=
  match prev with
  | None => true
  | Some c => MULTILINE fl && chr_eqb c nl
  end.

(** [$]: at the end of the text or before its final newline, and under
    MULTILINE before each newline. *)
Definition at_eol (fl : flags) (s : str) : bool :=
  match s with
  | [] => true
  | c :: s' =>
      chr_eqb c nl && (MULTILINE fl || match s' with [] => true | _ => false end)
  end.

Section Matcher.

Variable fl : flags.
Variable R : Type.

(** A continuation receives the text matched by the pattern before it,
    the character before the position reached, the remaining text and
    the groups. *)
Definition cont := str -> option ascii -> str -> caps -> option R.

(** [a{min,}] and [a{min,}?] from the current position; [acc] is the
    text matched so far, last character first. *)
Fixpoint rep (a : atom) (greedy : bool) (k : cont) (min : nat) (acc : str)
    (prev : option ascii) (s : str) (g : caps) {struct s} : option R :=
  match min with
  | S min' =>
      match s with
      | c :: s' =>
          if atom_ok fl a c then rep a greedy k min' (c :: acc) (Some c) s' g
          else None
      | [] => None
      end
  | O =>
      if greedy then
        match s with
        | c :: s' =>
            if atom_ok fl a c then
              match rep a greedy k 0 (c :: acc) (Some c) s' g with
              | Some res => Some res
              | None => k (rev acc) prev s g
              end
            else k (rev acc) prev s g
        | [] => k (rev acc) prev s g
        end
      else
        match k (rev acc) prev s g with
        | Some res => Some res
        | None =>
            match s with
            | c :: s' =>
                if atom_ok fl a c then rep a greedy k 0 (c :: acc) (Some c) s' g
                else None
            | [] => None
            end
        end
  end.

(** The backtracking matcher: the first way, in the order Python tries
    them, in which [r] followed by [k] matches at the current
    position. *)
Fixpoint run (r : regex) (k : cont) (prev : option ascii) (s : str)
    (g : caps) : option R :=
  match r with
  | Emp => k [] prev s g
  | Bol => if at_bol fl prev then k [] prev s g else None
  | Eol => if at_eol fl s then k [] prev s g else None
  | One a =>
      match s with
      | c :: s' => if atom_ok fl a c then k [c] (Some c) s' g else None
      | [] => None
      end
  | Rep a min greedy => rep a greedy k min [] prev s g
  | Grp n r' => run r' (fun m p s' g' => k m p s' ((n, m) :: g')) prev s g
  | Seq r1 r2 =>
      run r1 (fun m1 p1 s1 g1 =>
                run r2 (fun m2 p2 s2 g2 => k (m1 ++ m2) p2 s2 g2) p1 s1 g1)
          prev s g
  end.

End Matcher.

(** A match at the current position: the matched text and the groups. *)
Definition exec (fl : flags) (r : regex) (prev : option ascii) (s : str)
    : option (str * caps) :=
  run fl r (fun m _ _ g => Some (m, g)) prev s [].

(** [re.search]: the leftmost match, as its groups. *)
Fixpoint search_from (fl : flags) (r : regex) (prev : option ascii) (s : str)
    : option caps :=
  match exec fl r prev s with
  | Some (_, g) => Some g
  | None =>
      match s with
      | [] => None
      | c :: s' => search_from fl r (Some c) s'
      end
  end.

Definition search (r : regex) (s : str) (fl : flags) : option caps :=
  search_from fl r None s.

(** Replacement templates: literal text and group references. *)
Inductive piece := Txt (t : str) | Ref (n : nat).

Definition expand (tpl : list piece) (g : caps) : str :=
  concat (map (fun p => match p with Txt t => t | Ref n => group n g end) tpl).

(** The number of replacements still allowed; [None] is no limit. *)
Definition spend (lim : option nat) : option nat :=
  match lim with
  | Some n => Some (pred n)
  | None => None
  end.

(** The scan of [re.sub].  [skip] counts the characters of the current
    match still to be passed over.  An empty match is replaced and the
    scan moves on by one character. *)
Fixpoint sub_from (fl : flags) (r : regex) (tpl : list piece)
    (lim : option nat) (skip : nat) (prev : option ascii) (s : str)
    {struct s} : str :=
  match skip with
  | S n =>
      match s with
      | c :: s' => sub_from fl r tpl lim n (Some c) s'
      | [] => []
      end
  | O =>
      match lim with
      | Some O => s
      | _ =>
          match exec fl r prev s with
          | Some (m, g) =>
              expand tpl g ++
              match s with
              | [] => []
              | c :: s' =>
                  match m with
                  | [] => c :: sub_from fl r tpl (spend lim) 0 (Some c) s'
                  | _ :: m' =>
                      sub_from fl r tpl (spend lim) (length m') (Some c) s'
                  end
              end
          | None =>
              match s with
              | [] => []
              | c :: s' => c :: sub_from fl r tpl lim 0 (Some c) s'
              end
          end
      end
  end.

(** [re.sub(pattern, repl, string, count, flags)]; [count = 0] replaces
    every match. *)
Definition sub (r : regex) (tpl : list piece) (s : str) (count : nat)
    (fl : flags) : str :=
  sub_from fl r tpl (if count =? 0 then None else Some count) 0 None s.

(** The scan of [re.split]: [cur] is the piece being collected, last
    character first.  Only a match of at least one character splits. *)
Fixpoint split_from (fl : flags) (r : regex) (skip : nat) (cur : str)
    (prev : option ascii) (s : str) {struct s} : list str :=
  match skip with
  | S n =>
      match s with
      | c :: s' => split_from fl r n cur (Some c) s'
      | [] => [rev cur]
      end
  | O =>
      match s with
      | [] => [rev cur]
      | c :: s' =>
          match exec fl r prev s with
          | Some (_ :: m', _) =>
              rev cur :: split_from fl r (length m') [] (Some c) s'
          | _ => split_from fl r 0 (c :: cur) (Some c) s'
          end
      end
  end.

(** [re.split(pattern, string)] for a pattern without groups. *)
Definition split (r : regex) (s : str) (fl : flags) : list str :=
  split_from fl r 0 [] None s.

End Re.

(** ** The program *)
Module Publish.

Import Re.

(** *** Patterns of the source *)

Definition fence : str := L "---" ++ [nl].

(** [^---\n.*?---\n], used with DOTALL *)
Definition re_frontmatter : regex :=
  seq [Bol; lit fence; Rep Dot 0 false; lit fence].

(** [^#### (.+)$], [^### (.+)$], [^## (.+)$] and [^# (.+)$], used with
    MULTILINE, for the markers [#### ], [### ], [## ] and [# ] *)
Definition re_header (marker : str) : regex :=
  seq [Bol; lit marker; Grp 1 (Rep Dot 1 true); Eol].

(** [\*\*\*(.+?)\*\*\*], [\*\*(.+?)\*\*], [\*(.+?)\*] and the same
    with underscores, for the markers [***], [**], [*], [___], [__], [_] *)
Definition re_emphasis (marker : str) : regex :=
  seq [lit marker; Grp 1 (Rep Dot 1 false); lit marker].

(** [\[([^\]]+)\]\(([^)]+)\)] *)
Definition re_link : regex :=
  seq [One (Lit "["); Grp 1 (Rep (NotIn [Chr "]"]) 1 true); One (Lit "]");
       One (Lit "("); Grp 2 (Rep (NotIn [Chr ")"]) 1 true); One (Lit ")")].

(** [`([^`]+)`] *)
Definition re_code : regex :=
  seq [One (Lit "`"); Grp 1 (Rep (NotIn [Chr "`"]) 1 true); One (Lit "`")].

(** [\n\s*\n] *)
Definition re_blank : regex :=
  seq [One (Lit nl); Rep Ws 0 true; One (Lit nl)].

(** [\n] *)
Definition re_newline : regex := One (Lit nl).

(** [^# .+\n], used without flags *)
Definition re_title_line : regex :=
  seq [Bol; lit (L "# "); Rep Dot 1 true; One (Lit nl)].

(** [[^a-z0-9\s-]] *)
Definition re_special : regex :=
  One (NotIn [Range "a" "z"; Range "0" "9"; Space; Chr "-"]).

(** [\s+] *)
Definition re_spaces : regex := Rep Ws 1 true.

(** The replacement [<tag>\1</tag>]. *)
Definition tagged (open close : str) : list piece :=
  [Txt open; Ref 1; Txt close].

(** *** markdown_to_html *)

(** Remove YAML frontmatter. *)
Definition strip_frontmatter (html : str) : str :=
  sub re_frontmatter [] html 0 dotall.

(** Convert headers. *)
Definition convert_headers (html : str) : str :=
  let html := sub (re_header (L "#### ")) (tagged (L "<h4>") (L "</h4>")) html 0 multiline in
  let html := sub (re_header (L "### ")) (tagged (L "<h3>") (L "</h3>")) html 0 multiline in
  let html := sub (re_header (L "## ")) (tagged (L "<h2>") (L "</h2>")) html 0 multiline in
  let html := sub (re_header (L "# ")) (tagged (L "<h1>") (L "</h1>")) html 0 multiline in
  html.

(** Convert bold and italic. *)
Definition convert_emphasis (html : str) : str :=
  let html := sub (re_emphasis (L "***")) (tagged (L "<strong><em>") (L "</em></strong>")) html 0 no_flags in
  let html := sub (re_emphasis (L "**")) (tagged (L "<strong>") (L "</strong>")) html 0 no_flags in
  let html := sub (re_emphasis (L "*")) (tagged (L "<em>") (L "</em>")) html 0 no_flags in
  let html := sub (re_emphasis (L "___")) (tagged (L "<strong><em>") (L "</em></strong>")) html 0 no_flags in
  let html := sub (re_emphasis (L "__")) (tagged (L "<strong>") (L "</strong>")) html 0 no_flags in
  let html := sub (re_emphasis (L "_")) (tagged (L "<em>") (L "</em>")) html 0 no_flags in
  html.

(** Convert links [text](url). *)
Definition convert_links (html : str) : str :=
  sub re_link
      [Txt (L "<a href=" ++ [dquote]); Ref 2; Txt (dquote :: L ">"); Ref 1;
       Txt (L "</a>")]
      html 0 no_flags.

(** Convert inline code. *)
Definition convert_code (html : str) : str :=
  sub re_code (tagged (L "<code>") (L "</code>")) html 0 no_flags.

(** One turn of the loop over the paragraphs: [None] when the
    paragraph is skipped. *)
Definition wrap_paragraph (p : str) : option str :=
  let p := Py.strip p in
  match p with
  | [] => None
  | _ =>
      if Py.startswith (L "<h") p || Py.startswith (L "<ul") p
         || Py.startswith (L "<ol") p
      then Some p
      else
        let p := sub re_newline [Txt (L " ")] p 0 no_flags in
        Some (L "<p>" ++ p ++ L "</p>")
  end.

Fixpoint wrap_paragraphs (paragraphs : list str) : list str :=
  match paragraphs with
  | [] => []
  | p :: rest =>
      match wrap_paragraph p with
      | Some q => q :: wrap_paragraphs rest
      | None => wrap_paragraphs rest
      end
  end.

(** The separator between the rendered blocks: a newline, twelve
    blanks, a newline, twelve blanks. *)
Definition separator : str :=
  nl :: L "            " ++ nl :: L "            ".

Definition markdown_to_html (md_text : str) : str :=
  let html := md_text in
  let html := strip_frontmatter html in
  let html := convert_headers html in
  let html := convert_emphasis html in
  let html := convert_links html in
  let html := convert_code html in
  let paragraphs := split re_blank (Py.strip html) no_flags in
  let processed := wrap_paragraphs paragraphs in
  Py.join separator processed.

(** *** create_essay_html *)

(** The fixed text of the page template around its insertion points:
    before the title in the [title] element, between that and the title
    in the [h1] element, on to the date, on to the content, and after
    the content. *)
Record template := Template {
  page_head : str;
  page_to_h1 : str;
  page_to_date : str;
  page_to_content : str;
  page_tail : str
}.

Definition default_date : str := L "2026".

Definition create_essay_html (tpl : template) (title content date : str) : str :=
  page_head tpl ++ title ++ page_to_h1 tpl ++ title ++ page_to_date tpl
    ++ date ++ page_to_content tpl ++ content ++ page_tail tpl.

(** *** title_from_filename and filename_from_title *)

Definition title_from_filename (filename : str) : str :=
  let name := Py.path_stem filename in
  Py.title (Py.replace "_" " " (Py.replace "-" " " name)).

Definition filename_from_title (title : str) : str :=
  let filename := Py.lower title in
  let filename := sub re_special [] filename 0 no_flags in
  let filename := sub re_spaces [Txt (L "-")] filename 0 no_flags in
  filename ++ L ".html".

(** *** main *)

(** The files the program can see, the lines it has printed and the
    commands it has handed to the shell.  A [File] holds the text that
    reading it as UTF-8 gives; a file whose bytes are not UTF-8 text,
    on which the read raises [UnicodeDecodeError], is outside the
    model.  Writing a file in an existing directory, printing a line
    and handing a command to the shell are taken to succeed. *)
Inductive node := File (content : str) | Directory.

Record world := World {
  files : list (str * node);
  printed : list str;
  commands : list str
}.

Fixpoint lookup (path : str) (fs : list (str * node)) : option node :=
  match fs with
  | [] => None
  | (p, n) :: fs' =>
      if str_eqb p path then Some n else lookup path fs'
  end.

Definition exists_ (path : str) (w : world) : bool :=
  match lookup path (files w) with Some _ => true | None => false end.

Definition print (line : str) (w : world) : world :=
  World (files w) (printed w ++ [line]) (commands w).

Definition write (path content : str) (w : world) : world :=
  World ((path, File content) :: files w) (printed w) (commands w).

Definition system (command : str) (w : world) : world :=
  World (files w) (printed w) (commands w ++ [command]).

(** How a run ends: [sys.exit(code)] or falling off the end of [main]
    (exit code 0), or an exception nobody catches. *)
Inductive ending :=
| Exit (code : nat)
| Uncaught (exception : str).

(** Get title (from argument or filename): the title, and the content
    handed on to the conversion. *)
Definition get_title (explicit : option str) (md_file md_content : str)
    : str * str :=
  match explicit with
  | Some title => (title, md_content)
  | None =>
      match search (re_header (L "# ")) md_content multiline with
      | Some title_match =>
          (group 1 title_match, sub re_title_line [] md_content 1 no_flags)
      | None => (title_from_filename md_file, md_content)
      end
  end.

(** The three characters that open the success line (U+00E2, U+0153,
    U+201C), in UTF-8. *)
Definition created_mark : str :=
  map ascii_of_nat [195; 162; 197; 147; 226; 128; 156].

(** [script_dir] is the directory of the program; [argv] is [sys.argv],
    the program name included. *)
Definition main (tpl : template) (script_dir : str) (argv : list str)
    (w : world) : ending * world :=
  match argv with
  | [] | [_] =>
      let w := print (L "Usage: ./publish.py <markdown-file> [title]") w in
      let w := print (L "Example: ./publish.py drafts/my-essay.md") w in
      let w := print (L "         ./publish.py drafts/my-essay.md "
                        ++ dquote :: L "My Custom Title" ++ [dquote]) w in
      (Exit 1, w)
  | _ :: md_file :: more =>
      if negb (exists_ md_file w) then
        let w := print (L "Error: File '" ++ md_file ++ L "' not found") w in
        (Exit 1, w)
      else
        match lookup md_file (files w) with
        | Some (File md_content) =>
            let '(title, md_content) :=
              get_title (hd_error more) md_file md_content in
            let html_content := markdown_to_html md_content in
            let full_html :=
              create_essay_html tpl title html_content default_date in
            let essays_dir := Py.path_join script_dir (L "essays") in
            let output_file :=
              Py.path_join essays_dir (filename_from_title title) in
            match lookup essays_dir (files w), lookup output_file (files w) with
            | Some Directory, Some Directory => (Uncaught (L "IsADirectoryError"), w)
            | Some Directory, _ =>
                let w := write output_file full_html w in
                let w := print (created_mark ++ L " Created: " ++ output_file) w in
                let update_script :=
                  Py.path_join script_dir (L "update-essays.sh") in
                let w :=
                  if exists_ update_script w
                  then system (dquote :: update_script ++ [dquote]) w
                  else w in
                (Exit 0, w)
            | Some (File _), _ => (Uncaught (L "NotADirectoryError"), w)
            | None, _ => (Uncaught (L "FileNotFoundError"), w)
            end
        | _ => (Uncaught (L "IsADirectoryError"), w)
        end
  end.

End Publish.


(** ** Vocabulary of the statements *)
Module Spec.

(** [s] without its prefix [p], when it has that prefix. *)
Fixpoint strip_prefix (p s : str) : option str :=
  match p, s with
  | [], _ => Some s
  | a :: p', b :: s' => if chr_eqb b a then strip_prefix p' s' else None
  | _ :: _, [] => None
  end.

(** The character before the position reached after reading [m]. *)
Definition after (m : str) (prev : option ascii) : option ascii :=
  fold_left (fun _ c => Some c) m prev.

Definition no_nl (s : str) : Prop := ~ In nl s.

(** Where a repetition of [a] cannot go on. *)
Definition stops (fl : Re.flags) (a : Re.atom) (rest : str) : Prop :=
  match rest with
  | [] => True
  | c :: _ => Re.atom_ok fl a c = false
  end.

(** The lines of a text, and the text of its lines. *)
Definition lines (s : str) : list str := Py.split_chr nl s.
Definition unlines (ls : list str) : str := Py.join [nl] ls.

(** What [filename_from_title] keeps of a lowercased title: lowercase
    letters, digits, whitespace and hyphens. *)
Definition slug_keep (c : ascii) : bool :=
  Py.is_lower c || Py.is_digit c || Py.is_space c || chr_eqb c "-".

(** Every run of whitespace becomes one hyphen; [in_run] tells that
    the hyphen of the current run is already out. *)
Fixpoint collapse_from (in_run : bool) (s : str) : str :=
  match s with
  | [] => []
  | c :: s' =>
      if Py.is_space c then
        if in_run then collapse_from true s' else "-"%char :: collapse_from true s'
      else c :: collapse_from false s'
  end.

Definition collapse_spaces (s : str) : str := collapse_from false s.

(** The output filename as the specification words it. *)
Definition slug_filename (title : str) : str :=
  collapse_spaces (filter slug_keep (Py.lower title)) ++ L ".html".

(** The characters a slug is made of. *)
Definition slug_char (c : ascii) : bool :=
  Py.is_lower c || Py.is_digit c || chr_eqb c "-".

(** A title without letters, digits, hyphens and whitespace. *)
Definition unsluggable (title : str) : bool :=
  forallb (fun c => negb (Py.is_upper c || slug_keep c)) title.

(** Where a line ends: at the end of the text or before a newline. *)
Definition line_end (rest : str) : Prop :=
  rest = [] \/ exists rest', rest = nl :: rest'.

(** What the pattern of a header with the given marker finds in one
    line: the text after the marker, when there is some. *)
Definition header_text (marker l : str) : option str :=
  match strip_prefix marker l with
  | Some (c :: t) => Some (c :: t)
  | _ => None
  end.

(** The first line that is a level-1 header, as its text. *)
Fixpoint first_h1 (ls : list str) : option str :=
  match ls with
  | [] => None
  | l :: ls' =>
      match header_text (L "# ") l with
      | Some t => Some t
      | None => first_h1 ls'
      end
  end.

(** One header substitution on one line. *)
Definition header_conv (marker open close l : str) : str :=
  match header_text marker l with
  | Some t => open ++ t ++ close
  | None => l
  end.

(** The four header substitutions on one line, in the order of the
    source. *)
Definition header_line (l : str) : str :=
  header_conv (L "# ") (L "<h1>") (L "</h1>")
    (header_conv (L "## ") (L "<h2>") (L "</h2>")
       (header_conv (L "### ") (L "<h3>") (L "</h3>")
          (header_conv (L "#### ") (L "<h4>") (L "</h4>") l))).

Definition digit (n : nat) : ascii := ascii_of_nat (48 + n).

(** The header element of level [n] around [t]. *)
Definition heading (n : nat) (t : str) : str :=
  L "<h" ++ digit n :: L ">" ++ t ++ L "</h" ++ digit n :: L ">".

(** A line of [n] hashes, a blank and the text [t]. *)
Definition marked (n : nat) (t : str) : str :=
  repeat "#"%char n ++ " "%char :: t.

(** What a substitution with a line-anchored pattern makes of one
    line, [f] giving the groups of the match in that line. *)
Definition line_out (f : str -> option Re.caps) (tpl : list Re.piece)
    (l : str) : str :=
  match f l with
  | Some g => Re.expand tpl g
  | None => l
  end.

Definition header_caps (marker l : str) : option Re.caps :=
  option_map (fun t => [(1, t)]) (header_text marker l).

(** The first occurrence of [p] in [s]: the text before it and the
    text after it. *)
Fixpoint find_split (p s : str) : option (str * str) :=
  match strip_prefix p s with
  | Some v => Some ([], v)
  | None =>
      match s with
      | [] => None
      | c :: s' =>
          match find_split p s' with
          | Some (x, v) => Some (c :: x, v)
          | None => None
          end
      end
  end.

(** The text after the leading front-matter block: the input starts
    with the fence line, and the block runs to the first fence after
    it. *)
Definition frontmatter_rest (t : str) : option str :=
  match strip_prefix Publish.fence t with
  | Some u => option_map snd (find_split Publish.fence u)
  | None => None
  end.

(** Newlines turned into blanks. *)
Definition nl_to_space (s : str) : str :=
  map (fun c => if chr_eqb c nl then " "%char else c) s.

(** A block that starts with the opening of a header element or of a
    list element. *)
Definition starts_with_block_tag (p : str) : bool :=
  existsb (fun tag => Py.startswith tag p)
          [L "<h1"; L "<h2"; L "<h3"; L "<h4"; L "<h5"; L "<h6"; L "<ul"; L "<ol"].

(** A text in which the character [c] does not occur. *)
Definition lacks (c : ascii) (s : str) : Prop := ~ In c s.

(** The characters that start an inline construct: emphasis, a link,
    inline code. *)
Definition inline_char (c : ascii) : bool :=
  chr_eqb c "*" || chr_eqb c "_" || chr_eqb c "[" || chr_eqb c "`".

Definition inline_free (t : str) : bool :=
  forallb (fun c => negb (inline_char c)) t.

Definition one_line (t : str) : bool :=
  forallb (fun c => negb (chr_eqb c nl)) t.

(** Text without whitespace at either end. *)
Definition trimmed (t : str) : bool :=
  match t with
  | c :: _ => negb (Py.is_space c)
  | [] => false
  end
  && match rev t with
     | c :: _ => negb (Py.is_space c)
     | [] => false
     end.

(** A paragraph of one line of plain text: no inline construct, no
    newline, no hash, fence or block element at its start, no
    whitespace at its ends. *)
Definition plain_line (t : str) : bool :=
  inline_free t && one_line t
  && negb (Py.startswith (L "#") t)
  && negb (Py.startswith (L "---") t)
  && negb (Py.startswith (L "<h") t || Py.startswith (L "<ul") t
           || Py.startswith (L "<ol") t)
  && trimmed t.

(** Paragraphs separated by one empty line. *)
Definition blank_line : str := [nl; nl].

Definition paragraph (t : str) : str := L "<p>" ++ t ++ L "</p>".


(** What follows the inner text of an emphasis span: the closing
    marker.  The match is then the two markers around the inner text
    [m], which is group 1. *)
Definition closer (marker : str) : Re.cont (str * Re.caps) :=
  fun m _ s g =>
    match strip_prefix marker s with
    | Some _ => Some (marker ++ m ++ marker, (1, m) :: g)
    | None => None
    end.

(** The emphasis forms, by the number of marker characters: one for
    italic, two for bold, three for both. *)
Inductive weight := Italic | Bold | BoldItalic.

Definition marker_length (w : weight) : nat :=
  match w with Italic => 1 | Bold => 2 | BoldItalic => 3 end.

(** The opening and the closing tag of a form. *)
Definition tags (w : weight) : str * str :=
  match w with
  | Italic => (L "<em>", L "</em>")
  | Bold => (L "<strong>", L "</strong>")
  | BoldItalic => (L "<strong><em>", L "</em></strong>")
  end.

(** An emphasis span together with the text that stands before it:
    the marker character is the underscore or the asterisk. *)
Record span := Span {
  before : str;
  underscore : bool;
  form : weight;
  inner : str
}.

Definition marker_chr (u : bool) : ascii := if u then "_" else "*".

Definition marker_of (u : bool) (w : weight) : str :=
  repeat (marker_chr u) (marker_length w).

(** The span as it is written, and as it is to be rendered. *)
Definition written (sp : span) : str :=
  before sp ++ marker_of (underscore sp) (form sp) ++ inner sp
    ++ marker_of (underscore sp) (form sp).

Definition rendered (sp : span) : str :=
  before sp ++ fst (tags (form sp)) ++ inner sp ++ snd (tags (form sp)).

(** Text on one line that holds neither asterisk nor underscore. *)
Definition plain (t : str) : bool :=
  forallb (fun c => negb (chr_eqb c nl || chr_eqb c "*" || chr_eqb c "_")) t.

(** Text that does not start with a marker character. *)
Definition starts_plain (t : str) : bool :=
  match t with
  | [] => true
  | c :: _ => negb (chr_eqb c "*" || chr_eqb c "_")
  end.

Definition nonempty (t : str) : bool :=
  match t with [] => false | _ :: _ => true end.

(** A run of well-formed spans, followed by [post]: the text before
    each span and its inner text are plain, the inner text is not
    empty, and a span in one or two marker characters is followed by
    a character that is no marker: the text before the next span is
    not empty, or the span is the last one and [post] does not start
    with a marker.  Nothing is asked of what follows a span in three
    marker characters. *)
Fixpoint spans_ok (spans : list span) (post : str) : bool :=
  match spans with
  | [] => true
  | sp :: rest =>
      plain (before sp) && plain (inner sp) && nonempty (inner sp)
      && (match form sp with
          | BoldItalic => true
          | _ => match rest with
                 | [] => starts_plain post
                 | next :: _ => nonempty (before next)
                 end
          end)
      && spans_ok rest post
  end.

(** The six substitutions of [convert_emphasis] in their order, and
    the state of a span after the first [done] of them. *)
Definition stage_of (u : bool) (w : weight) : nat :=
  (if u then 3 else 0) + (3 - marker_length w).

Definition shown (done : nat) (sp : span) : str :=
  if stage_of (underscore sp) (form sp) <? done then rendered sp else written sp.

Definition stage (u : bool) (w : weight) (html : str) : str :=
  Re.sub (Publish.re_emphasis (marker_of u w))
         (Publish.tagged (fst (tags w)) (snd (tags w))) html 0 Re.no_flags.

(** Text made of whole lines: empty, or ending in a line break, so
    that what is appended to it starts a line. *)
Definition whole_lines (t : str) : bool :=
  match rev t with
  | [] => true
  | c :: _ => chr_eqb c nl
  end.

(*SPEC-END*)
End Spec.

Import Re Publish Spec.

(** ** Characters *)

Lemma chr_eqb_eq (a b : ascii) : chr_eqb a b = true <-> a = b.
Proof. apply Ascii.eqb_eq. Qed.

Lemma chr_eqb_neq (a b : ascii) : chr_eqb a b = false <-> a <> b.
Proof. apply Ascii.eqb_neq. Qed.

Lemma chr_eqb_refl (a : ascii) : chr_eqb a a = true.
Proof. apply Ascii.eqb_refl. Qed.

Lemma after_app (m1 m2 : str) (prev : option ascii) :
  after (m1 ++ m2) prev = after m2 (after m1 prev).
Proof. unfold after. apply fold_left_app. Qed.

Lemma after_cons (c : ascii) (m : str) (prev : option ascii) :
  after (c :: m) prev = after m (Some c).
Proof. reflexivity. Qed.

Lemma after_snoc (m : str) (c : ascii) (prev : option ascii) :
  after (m ++ [c]) prev = Some c.
Proof. rewrite after_app. reflexivity. Qed.

Lemma strip_prefix_app (p s : str) : strip_prefix p (p ++ s) = Some s.
Proof.
  induction p as [|a p IH]; simpl; [reflexivity|].
  now rewrite chr_eqb_refl.
Qed.

Lemma strip_prefix_Some (p s t : str) :
  strip_prefix p s = Some t -> s = p ++ t.
Proof.
  revert s. induction p as [|a p IH]; intros s H; simpl in *.
  - now inversion H.
  - destruct s as [|b s]; [discriminate|].
    destruct (chr_eqb b a) eqn:E; [|discriminate].
    apply chr_eqb_eq in E. subst b. f_equal. now apply IH.
Qed.

(** ** The matcher on literal text *)

Section MatcherFacts.

Variable fl : flags.
Variable R : Type.

(** A literal matches exactly when it is a prefix of the text. *)
Lemma run_lit (p : str) (k : cont R) (prev : option ascii) (s : str) (g : caps) :
  run fl (lit p) k prev s g =
  match strip_prefix p s with
  | Some s' => k p (after p prev) s' g
  | None => None
  end.
Proof.
  revert k prev s. induction p as [|a p IH]; intros k prev s; simpl.
  - reflexivity.
  - destruct s as [|b s]; [reflexivity|].
    destruct (chr_eqb b a) eqn:E; [|reflexivity].
    apply chr_eqb_eq in E. subst b. rewrite IH.
    destruct (strip_prefix p s); reflexivity.
Qed.

(** One compulsory repetition. *)
Lemma rep_step (a : atom) (gr : bool) (k : cont R) (n : nat) (acc : str)
    (prev : option ascii) (c : ascii) (s : str) (g : caps) :
  atom_ok fl a c = true ->
  rep fl a gr k (S n) acc prev (c :: s) g = rep fl a gr k n (c :: acc) (Some c) s g.
Proof. intros H. simpl. now rewrite H. Qed.

(** Greedy repetition runs to the end of a stretch of admissible
    characters when the continuation accepts what follows. *)
Lemma rep_greedy_all (a : atom) (k : cont R) (t rest acc : str)
    (prev : option ascii) (g : caps) (res : R) :
  Forall (fun c => atom_ok fl a c = true) t ->
  stops fl a rest ->
  k (rev acc ++ t) (after t prev) rest g = Some res ->
  rep fl a true k 0 acc prev (t ++ rest) g = Some res.
Proof.
  revert acc prev. induction t as [|c t IH]; intros acc prev Hok Hstop Hk.
  - simpl in *. rewrite app_nil_r in Hk.
    destruct rest as [|c rest]; simpl; [exact Hk|].
    simpl in Hstop. now rewrite Hstop.
  - inversion Hok as [|? ? Hc Ht]; subst. simpl. rewrite Hc.
    rewrite (IH (c :: acc) (Some c)); auto.
    simpl. now rewrite <- app_assoc.
Qed.

(** Lazy repetition passes over a stretch where the continuation
    refuses every text that starts inside the stretch. *)
Lemma rep_lazy_skip (a : atom) (k : cont R) (x rest acc : str)
    (prev : option ascii) (g : caps) :
  Forall (fun c => atom_ok fl a c = true) x ->
  (forall m p c s, In c x -> k m p (c :: s) g = None) ->
  rep fl a false k 0 acc prev (x ++ rest) g =
  rep fl a false k 0 (rev x ++ acc) (after x prev) rest g.
Proof.
  revert acc prev. induction x as [|c x IH]; intros acc prev Hok Hk.
  - reflexivity.
  - inversion Hok as [|? ? Hc Hx]; subst. simpl.
    rewrite Hk by (now left). rewrite Hc.
    rewrite IH; auto.
    + now rewrite <- app_assoc.
    + intros. apply Hk. now right.
Qed.

Lemma rep_lazy_stop (a : atom) (k : cont R) (rest acc : str)
    (prev : option ascii) (g : caps) (res : R) :
  k (rev acc) prev rest g = Some res ->
  rep fl a false k 0 acc prev rest g = Some res.
Proof. intros H. destruct rest; simpl; now rewrite H. Qed.

End MatcherFacts.

(** ** The scan of [re.sub] *)

Section SubFacts.

Variable fl : flags.
Variable r : regex.
Variable tpl : list piece.

Lemma sub_from_skip (m s : str) (lim : option nat) (prev : option ascii) :
  sub_from fl r tpl lim (length m) prev (m ++ s) =
  sub_from fl r tpl lim 0 (after m prev) s.
Proof.
  revert prev. induction m as [|c m IH]; intros prev; simpl.
  - destruct s; reflexivity.
  - apply IH.
Qed.

(** No match here: the character is kept. *)
Lemma sub_from_keep (c : ascii) (s : str) (prev : option ascii) :
  exec fl r prev (c :: s) = None ->
  sub_from fl r tpl None 0 prev (c :: s) =
  c :: sub_from fl r tpl None 0 (Some c) s.
Proof. intros H. simpl. now rewrite H. Qed.

(** A match of at least one character: it is replaced and the scan
    resumes after it. *)
Lemma sub_from_match (m s : str) (g : caps) (prev : option ascii) :
  m <> [] ->
  exec fl r prev (m ++ s) = Some (m, g) ->
  sub_from fl r tpl None 0 prev (m ++ s) =
  expand tpl g ++ sub_from fl r tpl None 0 (after m prev) s.
Proof.
  intros Hm H. destruct m as [|c m]; [congruence|].
  simpl app in *. simpl sub_from. rewrite H. f_equal.
  apply (sub_from_skip m s None (Some c)).
Qed.

Lemma sub_from_end (prev : option ascii) :
  exec fl r prev [] = None -> sub_from fl r tpl None 0 prev [] = [].
Proof. intros H. simpl. now rewrite H. Qed.

(** A stretch without any match is copied. *)
Lemma sub_from_copy (x s : str) (prev : option ascii) :
  (forall x1 c x2, x = x1 ++ c :: x2 ->
     exec fl r (after x1 prev) (c :: x2 ++ s) = None) ->
  sub_from fl r tpl None 0 prev (x ++ s) =
  x ++ sub_from fl r tpl None 0 (after x prev) s.
Proof.
  revert prev. induction x as [|c x IH]; intros prev H.
  - reflexivity.
  - simpl app. rewrite sub_from_keep by (apply (H [] c x); reflexivity).
    f_equal. apply IH. intros x1 d x2 E.
    apply (H (c :: x1) d x2). now rewrite E.
Qed.

End SubFacts.

(** A pattern of one atom. *)
Lemma exec_one (fl : flags) (a : atom) (prev : option ascii) (c : ascii) (s : str) :
  exec fl (One a) prev (c :: s) = if atom_ok fl a c then Some ([c], []) else None.
Proof. reflexivity. Qed.

(** ** Lines *)

Lemma unlines_cons (l l2 : str) (ls : list str) :
  unlines (l :: l2 :: ls) = l ++ nl :: unlines (l2 :: ls).
Proof. reflexivity. Qed.

Lemma lines_not_nil (s : str) : lines s <> [].
Proof.
  unfold lines. induction s as [|c s IH]; simpl; [discriminate|].
  destruct (chr_eqb c nl); [discriminate|].
  destruct (Py.split_chr nl s); discriminate.
Qed.

Lemma lines_no_nl (s : str) : Forall no_nl (lines s).
Proof.
  unfold lines. induction s as [|c s IH]; simpl.
  - constructor; [intros []|constructor].
  - destruct (chr_eqb c nl) eqn:E.
    + constructor; [intros []|exact IH].
    + apply chr_eqb_neq in E.
      destruct (Py.split_chr nl s) as [|l ls].
      * constructor; [|constructor]. intros [H|[]]. congruence.
      * inversion IH as [|? ? Hl Hls]; subst.
        constructor; [|exact Hls]. intros [H|H]; [congruence|contradiction].
Qed.

Lemma lines_cons (c : ascii) (s : str) :
  lines (c :: s) =
  if chr_eqb c nl then [] :: lines s
  else match lines s with
       | l :: ls => (c :: l) :: ls
       | [] => [[c]]
       end.
Proof. reflexivity. Qed.

Lemma unlines_chr (c : ascii) (l : str) (ls : list str) :
  unlines ((c :: l) :: ls) = c :: unlines (l :: ls).
Proof. destruct ls; reflexivity. Qed.

Lemma unlines_lines (s : str) : unlines (lines s) = s.
Proof.
  induction s as [|c s IH]; [reflexivity|]. rewrite lines_cons.
  pose proof (lines_not_nil s) as Hn.
  destruct (lines s) as [|l ls]; [congruence|].
  destruct (chr_eqb c nl) eqn:E.
  - apply chr_eqb_eq in E. subst c. rewrite unlines_cons. now rewrite IH.
  - rewrite unlines_chr. now rewrite IH.
Qed.

Lemma after_no_nl (l : str) (prev : option ascii) :
  l <> [] -> no_nl l -> at_bol multiline (after l prev) = false.
Proof.
  intros Hl Hn. destruct (exists_last Hl) as (l' & c & ->).
  rewrite after_snoc. simpl. apply chr_eqb_neq. intros ->.
  apply Hn. apply in_or_app. right. now left.
Qed.

Lemma no_nl_app (a b : str) : no_nl (a ++ b) <-> no_nl a /\ no_nl b.
Proof.
  unfold no_nl. split.
  - intros H. split; intros Hi; apply H, in_or_app; auto.
  - intros [Ha Hb] Hi. apply in_app_or in Hi as [Hi|Hi]; auto.
Qed.

Lemma no_nl_cons (c : ascii) (a : str) : no_nl (c :: a) <-> c <> nl /\ no_nl a.
Proof.
  unfold no_nl. simpl. split.
  - intros H. split; [intros ->|intros Hi]; apply H; auto.
  - intros [Hc Ha] [Hi|Hi]; auto.
Qed.

(** ** Line-anchored patterns *)

Section LineScan.

Variable r : regex.
Variable f : str -> option caps.

Hypothesis exec_inside : forall prev s,
  at_bol multiline prev = false -> exec multiline r prev s = None.

Hypothesis exec_line : forall prev l rest,
  at_bol multiline prev = true -> no_nl l -> line_end rest ->
  exec multiline r prev (l ++ rest) = option_map (fun g => (l, g)) (f l).

Hypothesis f_nil : f [] = None.

Lemma exec_line_end (prev : option ascii) (rest : str) :
  line_end rest -> exec multiline r prev rest = None.
Proof.
  intros Hr. destruct (at_bol multiline prev) eqn:E.
  - change rest with ([] ++ rest).
    rewrite (@exec_line prev [] rest E); auto.
    + now rewrite f_nil.
    + intros [].
  - now apply exec_inside.
Qed.

Lemma search_from_hit (prev : option ascii) (s m : str) (g : caps) :
  exec multiline r prev s = Some (m, g) ->
  search_from multiline r prev s = Some g.
Proof. intros H. destruct s; simpl; now rewrite H. Qed.

Lemma search_from_keep (prev : option ascii) (c : ascii) (s : str) :
  exec multiline r prev (c :: s) = None ->
  search_from multiline r prev (c :: s) = search_from multiline r (Some c) s.
Proof. intros H. simpl. now rewrite H. Qed.

Lemma search_from_end (prev : option ascii) :
  exec multiline r prev [] = None -> search_from multiline r prev [] = None.
Proof. intros H. simpl. now rewrite H. Qed.

Lemma search_from_copy (x s : str) (prev : option ascii) :
  (forall x1 c x2, x = x1 ++ c :: x2 ->
     exec multiline r (after x1 prev) (c :: x2 ++ s) = None) ->
  search_from multiline r prev (x ++ s) =
  search_from multiline r (after x prev) s.
Proof.
  revert prev. induction x as [|c x IH]; intros prev H.
  - reflexivity.
  - simpl app. rewrite search_from_keep by (apply (H [] c x); reflexivity).
    apply IH. intros x1 d x2 E.
    apply (H (c :: x1) d x2). now rewrite E.
Qed.

Variable tpl : list piece.

Lemma sub_from_line (prev : option ascii) (l rest : str) :
  at_bol multiline prev = true -> no_nl l -> line_end rest ->
  sub_from multiline r tpl None 0 prev (l ++ rest) =
  line_out f tpl l ++ sub_from multiline r tpl None 0 (after l prev) rest.
Proof.
  intros Hb Hl Hr. unfold line_out.
  pose proof (@exec_line prev l rest Hb Hl Hr) as He.
  destruct (f l) as [g|] eqn:Ef; simpl in He.
  - apply sub_from_match; [|exact He]. intros ->. congruence.
  - destruct l as [|c l]; [reflexivity|].
    apply no_nl_cons in Hl as [Hc Hl].
    simpl app in *. rewrite sub_from_keep by exact He. simpl. f_equal.
    apply sub_from_copy. intros x1 d x2 E. apply exec_inside.
    destruct x1 as [|e x1].
    + apply chr_eqb_neq. exact Hc.
    + apply after_no_nl; [discriminate|].
      rewrite E in Hl. apply no_nl_app in Hl. tauto.
Qed.

Lemma sub_from_lines (ls : list str) (l : str) (prev : option ascii) :
  at_bol multiline prev = true -> Forall no_nl (l :: ls) ->
  sub_from multiline r tpl None 0 prev (unlines (l :: ls)) =
  unlines (map (line_out f tpl) (l :: ls)).
Proof.
  revert l prev. induction ls as [|l2 ls IH]; intros l prev Hb Hn;
    inversion Hn as [|? ? Hl Hls]; subst.
  - change (unlines [l]) with l.
    change (unlines (map (line_out f tpl) [l])) with (line_out f tpl l).
    pose proof (@sub_from_line prev l [] Hb Hl (or_introl eq_refl)) as H.
    rewrite app_nil_r in H. rewrite H.
    rewrite sub_from_end; [apply app_nil_r|]. apply exec_line_end. now left.
  - rewrite unlines_cons. simpl map. rewrite unlines_cons.
    rewrite sub_from_line; auto; [|right; eauto]. f_equal.
    rewrite sub_from_keep by (apply exec_line_end; right; eauto).
    f_equal. now apply IH.
Qed.

Lemma search_from_line (prev : option ascii) (l rest : str) :
  at_bol multiline prev = true -> no_nl l -> line_end rest ->
  search_from multiline r prev (l ++ rest) =
  match f l with
  | Some g => Some g
  | None => search_from multiline r (after l prev) rest
  end.
Proof.
  intros Hb Hl Hr.
  pose proof (@exec_line prev l rest Hb Hl Hr) as He.
  destruct (f l) as [g|] eqn:Ef; simpl in He.
  - now apply search_from_hit with (m := l).
  - destruct l as [|c l]; [reflexivity|].
    apply no_nl_cons in Hl as [Hc Hl].
    simpl app in *. rewrite search_from_keep by exact He.
    rewrite after_cons. apply search_from_copy. intros x1 d x2 E. apply exec_inside.
    destruct x1 as [|e x1].
    + apply chr_eqb_neq. exact Hc.
    + apply after_no_nl; [discriminate|].
      rewrite E in Hl. apply no_nl_app in Hl. tauto.
Qed.

Lemma search_from_lines (ls : list str) (l : str) (prev : option ascii) :
  at_bol multiline prev = true -> Forall no_nl (l :: ls) ->
  search_from multiline r prev (unlines (l :: ls)) =
  fold_right (fun l found => match f l with Some g => Some g | None => found end)
             None (l :: ls).
Proof.
  revert l prev. induction ls as [|l2 ls IH]; intros l prev Hb Hn;
    inversion Hn as [|? ? Hl Hls]; subst.
  - change (unlines [l]) with l.
    pose proof (@search_from_line prev l [] Hb Hl (or_introl eq_refl)) as H.
    rewrite app_nil_r in H. rewrite H. simpl.
    destruct (f l); [reflexivity|].
    apply search_from_end. apply exec_line_end. now left.
  - rewrite unlines_cons.
    rewrite search_from_line; auto; [|right; eauto]. simpl fold_right.
    destruct (f l); [reflexivity|].
    rewrite search_from_keep by (apply exec_line_end; right; eauto).
    now apply IH.
Qed.

End LineScan.

(** ** The header patterns *)

Lemma strip_prefix_line (marker l rest : str) :
  no_nl marker -> line_end rest ->
  strip_prefix marker (l ++ rest) =
  option_map (fun t => t ++ rest) (strip_prefix marker l).
Proof.
  intros Hm Hr. revert l. induction marker as [|a p IH]; intros l.
  - reflexivity.
  - apply no_nl_cons in Hm as [Ha Hp].
    destruct l as [|b l]; simpl.
    + destruct Hr as [->|[rest' ->]]; [reflexivity|].
      simpl. destruct (chr_eqb nl a) eqn:E; [|reflexivity].
      apply chr_eqb_eq in E. congruence.
    + destruct (chr_eqb b a); [now apply IH|reflexivity].
Qed.

Lemma header_exec_inside (marker : str) (prev : option ascii) (s : str) :
  at_bol multiline prev = false ->
  exec multiline (re_header marker) prev s = None.
Proof.
  intros H. unfold exec, re_header, seq. cbn [fold_right run]. now rewrite H.
Qed.

Lemma header_exec_line (marker : str) (prev : option ascii) (l rest : str) :
  no_nl marker ->
  at_bol multiline prev = true -> no_nl l -> line_end rest ->
  exec multiline (re_header marker) prev (l ++ rest) =
  option_map (fun g => (l, g)) (header_caps marker l).
Proof.
  intros Hm Hb Hl Hr. unfold exec, re_header, seq, header_caps, header_text.
  cbn [fold_right run]. rewrite Hb, run_lit.
  rewrite strip_prefix_line by assumption.
  destruct (strip_prefix marker l) as [[|c t]|] eqn:E; simpl option_map.
  - destruct Hr as [->|[rest' ->]]; reflexivity.
  - apply strip_prefix_Some in E. subst l.
    apply no_nl_app in Hl as [_ Hl]. apply no_nl_cons in Hl as [Hc Ht].
    simpl app. rewrite rep_step.
    2:{ simpl. now apply negb_true_iff, chr_eqb_neq. }
    erewrite rep_greedy_all.
    + reflexivity.
    + apply Forall_forall. intros x Hx. simpl.
      apply negb_true_iff, chr_eqb_neq. intros ->. now apply Ht.
    + destruct Hr as [->|[rest' ->]]; simpl; auto.
    + cbn [run]. 
      replace (at_eol multiline rest) with true.
      2:{ destruct Hr as [->|[rest' ->]]; reflexivity. }
      simpl. now rewrite !app_nil_r.
  - reflexivity.
Qed.

Lemma header_caps_nil (marker : str) : marker <> [] -> header_caps marker [] = None.
Proof. intros H. destruct marker; [congruence|reflexivity]. Qed.

Lemma line_out_header (marker open close l : str) :
  line_out (header_caps marker) (tagged open close) l =
  header_conv marker open close l.
Proof.
  unfold line_out, header_caps, header_conv.
  destruct (header_text marker l) as [t|]; [|reflexivity].
  unfold tagged, expand. simpl. now rewrite app_nil_r.
Qed.

Lemma header_text_no_nl (marker l t : str) :
  no_nl l -> header_text marker l = Some t -> no_nl t.
Proof.
  unfold header_text. intros Hl H.
  destruct (strip_prefix marker l) as [[|c u]|] eqn:E; try discriminate.
  inversion H; subst. apply strip_prefix_Some in E. subst l.
  now apply no_nl_app in Hl.
Qed.

Lemma header_conv_no_nl (marker open close l : str) :
  no_nl open -> no_nl close -> no_nl l ->
  no_nl (header_conv marker open close l).
Proof.
  intros Ho Hc Hl. unfold header_conv.
  destruct (header_text marker l) as [t|] eqn:E; [|exact Hl].
  apply no_nl_app. split; [exact Ho|]. apply no_nl_app. split; [|exact Hc].
  eapply header_text_no_nl; eauto.
Qed.

(** One header substitution works line by line. *)
Lemma sub_header_lines (marker open close : str) (ls : list str) :
  marker <> [] -> no_nl marker -> ls <> [] -> Forall no_nl ls ->
  sub (re_header marker) (tagged open close) (unlines ls) 0 multiline =
  unlines (map (header_conv marker open close) ls).
Proof.
  intros Hm Hn Hne Hls. destruct ls as [|l ls]; [congruence|].
  unfold sub. simpl Nat.eqb. cbv iota.
  rewrite sub_from_lines with (f := header_caps marker); auto.
  - f_equal. apply map_ext. intros. apply line_out_header.
  - intros. now apply header_exec_inside.
  - intros. now apply header_exec_line.
  - now apply header_caps_nil.
Qed.

Lemma no_nl_check (s : str) :
  forallb (fun c => negb (chr_eqb c nl)) s = true -> no_nl s.
Proof.
  intros H Hin. rewrite forallb_forall in H. specialize (H _ Hin).
  now rewrite chr_eqb_refl in H.
Qed.

Lemma header_conv_lines (marker open close : str) (ls : list str) :
  no_nl open -> no_nl close -> Forall no_nl ls ->
  Forall no_nl (map (header_conv marker open close) ls).
Proof.
  intros Ho Hc Hls. induction Hls; simpl; constructor; auto.
  now apply header_conv_no_nl.
Qed.

Lemma map_not_nil (A B : Type) (f : A -> B) (ls : list A) :
  ls <> [] -> map f ls <> [].
Proof. destruct ls; [congruence|discriminate]. Qed.

Lemma convert_headers_lines (ls : list str) :
  ls <> [] -> Forall no_nl ls ->
  convert_headers (unlines ls) = unlines (map header_line ls).
Proof.
  intros Hne Hls. unfold convert_headers.
  rewrite sub_header_lines;
    [|discriminate|now apply no_nl_check|exact Hne|exact Hls].
  rewrite sub_header_lines;
    [|discriminate|now apply no_nl_check|now apply map_not_nil|].
  2:{ apply header_conv_lines; auto; now apply no_nl_check. }
  rewrite sub_header_lines;
    [|discriminate|now apply no_nl_check|now repeat apply map_not_nil|].
  2:{ repeat apply header_conv_lines; auto; now apply no_nl_check. }
  rewrite sub_header_lines;
    [|discriminate|now apply no_nl_check|now repeat apply map_not_nil|].
  2:{ repeat apply header_conv_lines; auto; now apply no_nl_check. }
  rewrite !map_map. reflexivity.
Qed.

Lemma convert_headers_text (text : str) :
  convert_headers text = unlines (map header_line (lines text)).
Proof.
  rewrite <- (unlines_lines text) at 1.
  pose proof (lines_not_nil text) as Hn. pose proof (lines_no_nl text) as Hl.
  now apply convert_headers_lines.
Qed.

Lemma header_line_marked (n : nat) (t : str) :
  1 <= n <= 4 -> t <> [] -> header_line (marked n t) = heading n t.
Proof.
  intros Hn Ht. destruct t as [|c t]; [congruence|].
  destruct n as [|[|[|[|[|n]]]]]; try lia; reflexivity.
Qed.

(** C8, as the code has it: the header substitutions work line by line,
    and a line of n hashes (n from 1 to 4), a blank and at least one
    more character becomes the header element of level n, whatever the
    lines around it; the other lines are treated on their own. *)
Theorem C8_header_levels (before after : list str) (n : nat) (t : str) :
  1 <= n <= 4 -> t <> [] -> no_nl t ->
  Forall no_nl before -> Forall no_nl after ->
  convert_headers (unlines (before ++ marked n t :: after)) =
  unlines (map header_line before ++ heading n t :: map header_line after).
Proof.
  intros Hn Ht Hnl Hb Ha.
  rewrite convert_headers_lines.
  - rewrite map_app. simpl map. now rewrite header_line_marked.
  - destruct before; discriminate.
  - apply Forall_app. split; [exact Hb|]. constructor; [|exact Ha].
    unfold marked. apply no_nl_app. split.
    + intros Hin. apply repeat_spec in Hin. discriminate.
    + apply no_nl_cons. split; [discriminate|exact Hnl].
Qed.

Lemma C8_header_levels_witness :
  convert_headers (unlines ([L "Intro"] ++ marked 3 (L "Part one") :: [L "text"])) =
  unlines (map header_line [L "Intro"] ++ heading 3 (L "Part one")
             :: map header_line [L "text"]).
Proof.
  apply (@C8_header_levels [L "Intro"] [L "text"] 3 (L "Part one")).
  - lia.
  - discriminate.
  - apply no_nl_check. reflexivity.
  - repeat constructor. apply no_nl_check. reflexivity.
  - repeat constructor. apply no_nl_check. reflexivity.
Defined.

(** C8 as stated fails on a marker with nothing after its blank: the
    line [## ] stays as it is. *)
Lemma C8_marker_without_text :
  ~ (forall (n : nat) (t : str),
       1 <= n <= 4 -> no_nl t -> convert_headers (marked n t) = heading n t).
Proof.
  intros H. specialize (H 2 [] ltac:(lia) (fun F => F)).
  vm_compute in H. discriminate.
Qed.

(** ** get_title *)

Lemma first_h1_fold (ls : list str) :
  fold_right (fun l found =>
                match header_caps (L "# ") l with
                | Some g => Some g
                | None => found
                end) None ls =
  option_map (fun t => [(1, t)]) (first_h1 ls).
Proof.
  induction ls as [|l ls IH]; [reflexivity|].
  cbn [fold_right first_h1]. rewrite IH. unfold header_caps.
  destruct (header_text (L "# ") l); reflexivity.
Qed.

Lemma search_h1_lines (ls : list str) :
  ls <> [] -> Forall no_nl ls ->
  search (re_header (L "# ")) (unlines ls) multiline =
  option_map (fun t => [(1, t)]) (first_h1 ls).
Proof.
  intros Hne Hls. destruct ls as [|l ls]; [congruence|]. unfold search.
  rewrite search_from_lines with (f := header_caps (L "# ")); auto.
  - apply first_h1_fold.
  - intros. now apply header_exec_inside.
  - intros. apply header_exec_line; auto. now apply no_nl_check.
Qed.

Lemma get_title_lines (md_file : str) (ls : list str) :
  ls <> [] -> Forall no_nl ls ->
  get_title None md_file (unlines ls) =
  match first_h1 ls with
  | Some t => (t, sub re_title_line [] (unlines ls) 1 no_flags)
  | None => (title_from_filename md_file, unlines ls)
  end.
Proof.
  intros Hne Hls. unfold get_title. rewrite search_h1_lines by assumption.
  destruct (first_h1 ls); reflexivity.
Qed.

Lemma get_title_text (md_file md_content : str) :
  get_title None md_file md_content =
  match first_h1 (lines md_content) with
  | Some t => (t, sub re_title_line [] md_content 1 no_flags)
  | None => (title_from_filename md_file, md_content)
  end.
Proof.
  rewrite <- (unlines_lines md_content) at 1.
  rewrite get_title_lines; [|apply lines_not_nil|apply lines_no_nl].
  now rewrite unlines_lines.
Qed.

Lemma first_h1_app (a b : list str) :
  first_h1 (a ++ b) =
  match first_h1 a with
  | Some t => Some t
  | None => first_h1 b
  end.
Proof.
  induction a as [|l a IH]; [reflexivity|].
  simpl app. cbn [first_h1]. rewrite IH.
  destruct (header_text (L "# ") l); reflexivity.
Qed.

(** C4, as the code has it: with no explicit title and no line
    anywhere in the input that is [# ] followed by at least one
    character, the title is the stem of the filename with each hyphen
    and underscore replaced by a blank, in title case, and the content
    goes on unchanged. *)
Theorem C4_title_from_filename (md_file md_content : str) :
  first_h1 (lines md_content) = None ->
  get_title None md_file md_content =
  (Py.title (Py.replace "_" " " (Py.replace "-" " " (Py.path_stem md_file))),
   md_content).
Proof.
  intros H. rewrite get_title_text. now rewrite H.
Qed.

Lemma C4_title_from_filename_witness :
  get_title None (L "drafts/my-first_essay.md") (L "Just some text.") =
  (L "My First Essay", L "Just some text.").
Proof.
  apply (@C4_title_from_filename (L "drafts/my-first_essay.md") (L "Just some text.")).
  reflexivity.
Defined.

(** C4 as stated fails when the header is not on the first line: the
    input has no leading header, yet its title is the header text. *)
Lemma C4_header_below_first_line :
  ~ (forall md_file md_content : str,
       header_text (L "# ") (hd [] (lines md_content)) = None ->
       fst (get_title None md_file md_content) = title_from_filename md_file).
Proof.
  intros H.
  specialize (H (L "my-essay.md") (L "Intro." ++ nl :: nl :: L "# Real Title" ++ [nl])
                eq_refl).
  vm_compute in H. discriminate.
Qed.

(** The title is resolved on the raw input, before the front-matter is
    removed: with no explicit title, a line [# h] inside the leading
    block between the [---] lines, with no such line before it, gives
    the title [h]. *)
Lemma get_title_frontmatter_header (md_file h : str)
    (meta1 meta2 body : list str) :
  Forall no_nl meta1 -> Forall no_nl meta2 -> Forall no_nl body ->
  first_h1 meta1 = None -> h <> [] -> no_nl h ->
  fst (get_title None md_file
         (unlines (L "---" :: meta1 ++ (L "# " ++ h) :: meta2 ++ L "---" :: body)))
  = h.
Proof.
  intros H1 H2 Hb Hf Hh Hn.
  rewrite get_title_lines.
  - change (L "---" :: meta1 ++ (L "# " ++ h) :: meta2 ++ L "---" :: body)
      with ([L "---"] ++ meta1 ++ (L "# " ++ h) :: meta2 ++ L "---" :: body).
    rewrite !first_h1_app, Hf. simpl.
    destruct h as [|c h]; [congruence|]. reflexivity.
  - discriminate.
  - constructor; [now apply no_nl_check|].
    apply Forall_app. split; [exact H1|]. constructor.
    + apply no_nl_app. split; [now apply no_nl_check|exact Hn].
    + apply Forall_app. split; [exact H2|]. constructor; [now apply no_nl_check|exact Hb].
Qed.

(** C2 at inputs the program can receive.  In the first the only line
    of the form [# ...] lies inside the front-matter, and nothing of
    it reaches the rendered body; the title is nevertheless that line's
    text, [draft], where the file name gives [My Essay].  In the second
    the front-matter holds such a line (a YAML comment) above the
    essay's own header: the title is the comment's text, and the
    essay's header, which was meant to be the title, stays in the
    rendered body. *)
Theorem C2_frontmatter_header_as_title :
  (strip_frontmatter
     (L "---" ++ nl :: L "# draft" ++ nl :: L "---" ++ nl :: L "Body text.")
   = L "Body text."
   /\ first_h1 (lines (L "Body text.")) = None
   /\ get_title None (L "my-essay.md")
        (L "---" ++ nl :: L "# draft" ++ nl :: L "---" ++ nl :: L "Body text.")
      = (L "draft",
         L "---" ++ nl :: L "# draft" ++ nl :: L "---" ++ nl :: L "Body text.")
   /\ title_from_filename (L "my-essay.md") = L "My Essay"
   /\ markdown_to_html
        (L "---" ++ nl :: L "# draft" ++ nl :: L "---" ++ nl :: L "Body text.")
      = L "<p>Body text.</p>")
  /\ (get_title None (L "my-essay.md")
        (L "---" ++ nl :: L "date: 2026" ++ nl :: L "# note" ++ nl :: L "---" ++ nl ::
           L "# Real Title" ++ nl :: nl :: L "Body.")
      = (L "note",
         L "---" ++ nl :: L "date: 2026" ++ nl :: L "# note" ++ nl :: L "---" ++ nl ::
           L "# Real Title" ++ nl :: nl :: L "Body.")
      /\ markdown_to_html
           (L "---" ++ nl :: L "date: 2026" ++ nl :: L "# note" ++ nl :: L "---" ++ nl ::
              L "# Real Title" ++ nl :: nl :: L "Body.")
         = L "<h1>Real Title</h1>" ++ separator ++ L "<p>Body.</p>").
Proof. repeat split; reflexivity. Qed.

(** ** Front-matter *)

Lemma find_split_Some (p s x v : str) :
  find_split p s = Some (x, v) -> s = x ++ p ++ v.
Proof.
  revert x. induction s as [|c s IH]; intros x H; simpl in H.
  - destruct (strip_prefix p []) eqn:E; [|discriminate].
    inversion H; subst. now apply strip_prefix_Some in E.
  - destruct (strip_prefix p (c :: s)) eqn:E.
    + inversion H; subst. now apply strip_prefix_Some in E.
    + destruct (find_split p s) as [[x' v']|]; [|discriminate].
      inversion H; subst. simpl. f_equal. now apply IH.
Qed.

(** Lazy repetition of an atom that admits every character, followed
    by a literal: the match ends at the first occurrence of the
    literal. *)
Lemma rep_lazy_find (fl : flags) (R : Type) (a : atom) (q : str)
    (k : cont R) (h : str -> caps -> str -> R)
    (u acc : str) (prev : option ascii) (g : caps) :
  (forall c, atom_ok fl a c = true) ->
  (forall m p s g', k m p s g' = option_map (h m g') (strip_prefix q s)) ->
  rep fl a false k 0 acc prev u g =
  match find_split q u with
  | Some (x, v) => Some (h (rev acc ++ x) g v)
  | None => None
  end.
Proof.
  intros Ha Hk. revert acc prev.
  induction u as [|c u IH]; intros acc prev; simpl.
  - rewrite Hk. destruct (strip_prefix q []); simpl; [|reflexivity].
    now rewrite app_nil_r.
  - rewrite Hk. destruct (strip_prefix q (c :: u)); simpl.
    + now rewrite app_nil_r.
    + rewrite Ha, IH. destruct (find_split q u) as [[x v]|]; [|reflexivity].
      simpl. now rewrite <- app_assoc.
Qed.

Lemma exec_frontmatter (t : str) :
  exec dotall re_frontmatter None t =
  match strip_prefix fence t with
  | Some u =>
      match find_split fence u with
      | Some (x, v) => Some (fence ++ x ++ fence, [])
      | None => None
      end
  | None => None
  end.
Proof.
  unfold exec, re_frontmatter, seq. cbn [fold_right run]. simpl at_bol. cbv iota.
  rewrite run_lit. destruct (strip_prefix fence t) as [u|]; [|reflexivity].
  rewrite rep_lazy_find with (q := fence)
    (h := fun m g v => ([] ++ fence ++ m ++ fence ++ [], g)).
  - destruct (find_split fence u) as [[x v]|]; [|reflexivity].
    now rewrite app_nil_r.
  - reflexivity.
  - intros m p s g'. rewrite run_lit.
    destruct (strip_prefix fence s); reflexivity.
Qed.

(** Past the first character a pattern anchored at the start of the
    text matches nowhere. *)
Lemma sub_from_anchored (fl : flags) (r : regex) (tpl : list piece)
    (s : str) (c : ascii) :
  MULTILINE fl = false ->
  sub_from fl (Seq Bol r) tpl None 0 (Some c) s = s.
Proof.
  intros Hf. revert c. induction s as [|d s IH]; intros c.
  - apply sub_from_end. unfold exec. simpl. now rewrite Hf.
  - rewrite sub_from_keep; [now rewrite IH|].
    unfold exec. simpl. now rewrite Hf.
Qed.

Lemma strip_frontmatter_eq (t : str) :
  strip_frontmatter t =
  match frontmatter_rest t with
  | Some v => v
  | None => t
  end.
Proof.
  unfold strip_frontmatter, sub, frontmatter_rest. simpl Nat.eqb. cbv iota.
  pose proof (exec_frontmatter t) as He.
  assert (Hrest : forall c s, sub_from dotall re_frontmatter [] None 0 (Some c) s = s).
  { intros c s. now apply (sub_from_anchored dotall). }
  assert (Hnone : exec dotall re_frontmatter None t = None ->
                  sub_from dotall re_frontmatter [] None 0 None t = t).
  { intros H. destruct t as [|c t].
    - now apply sub_from_end.
    - rewrite sub_from_keep by exact H. now rewrite Hrest. }
  destruct (strip_prefix fence t) as [u|] eqn:Eu; [|now apply Hnone].
  destruct (find_split fence u) as [[x v]|] eqn:Ef; simpl option_map;
    [|now apply Hnone].
  apply strip_prefix_Some in Eu. apply find_split_Some in Ef. subst u t.
  replace (fence ++ x ++ fence ++ v) with ((fence ++ x ++ fence) ++ v)
    in * by now rewrite <- !app_assoc.
  rewrite sub_from_match with (g := []); [|discriminate|exact He].
  rewrite !after_app. apply Hrest.
Qed.

Lemma strip_frontmatter_shorter (t v : str) :
  frontmatter_rest t = Some v -> length v < length t.
Proof.
  unfold frontmatter_rest. intros H.
  destruct (strip_prefix fence t) as [u|] eqn:Eu; [|discriminate].
  destruct (find_split fence u) as [[x w]|] eqn:Ef; [|discriminate].
  simpl in H. inversion H; subst w.
  apply strip_prefix_Some in Eu. apply find_split_Some in Ef. subst u t.
  rewrite !length_app. simpl. lia.
Qed.

(** C3, as the code has it: one application removes one leading
    block.  A second application leaves the once-stripped text as it is
    when that text does not itself start with a fenced block, and
    removes a further block when it does. *)
Theorem C3_strip_twice (t : str) :
  (frontmatter_rest (strip_frontmatter t) = None ->
   strip_frontmatter (strip_frontmatter t) = strip_frontmatter t)
  /\ (forall v, frontmatter_rest (strip_frontmatter t) = Some v ->
        strip_frontmatter (strip_frontmatter t) = v
        /\ length v < length (strip_frontmatter t)).
Proof.
  split.
  - intros H. rewrite (strip_frontmatter_eq (strip_frontmatter t)). now rewrite H.
  - intros v H. split.
    + rewrite (strip_frontmatter_eq (strip_frontmatter t)). now rewrite H.
    + now apply strip_frontmatter_shorter.
Qed.

Lemma C3_strip_twice_witness :
  strip_frontmatter
    (strip_frontmatter
       (L "---" ++ nl :: L "date: 2026" ++ nl :: L "---" ++ nl :: L "Body."))
  = strip_frontmatter
      (L "---" ++ nl :: L "date: 2026" ++ nl :: L "---" ++ nl :: L "Body.").
Proof.
  apply (proj1 (C3_strip_twice
                  (L "---" ++ nl :: L "date: 2026" ++ nl :: L "---" ++ nl :: L "Body."))).
  reflexivity.
Defined.

(** C3 as stated fails: when the body opens with a [---] line and has
    another one further down, the second application removes text
    that the first one left. *)
Lemma C3_not_idempotent :
  ~ (forall t : str,
       strip_frontmatter (strip_frontmatter t) = strip_frontmatter t).
Proof.
  intros H.
  specialize (H (L "---" ++ nl :: L "date: 2026" ++ nl :: L "---" ++ nl ::
                 L "---" ++ nl :: L "First section" ++ nl :: L "---" ++ nl ::
                 L "Second section")).
  vm_compute in H. discriminate.
Qed.

(** ** Emphasis *)

Lemma lacks_app (c : ascii) (a b : str) :
  lacks c (a ++ b) <-> lacks c a /\ lacks c b.
Proof.
  unfold lacks. split.
  - intros H. split; intros Hi; apply H, in_or_app; auto.
  - intros [Ha Hb] Hi. apply in_app_or in Hi as [Hi|Hi]; auto.
Qed.

Lemma lacks_check (c : ascii) (s : str) :
  forallb (fun d => negb (chr_eqb d c)) s = true -> lacks c s.
Proof.
  intros H Hin. rewrite forallb_forall in H. specialize (H _ Hin).
  now rewrite chr_eqb_refl in H.
Qed.

Section Emphasis.

Variable c : ascii.
Variable marker' : str.
Variable tpl : list piece.

Lemma exec_emphasis_miss (prev : option ascii) (d : ascii) (s : str) :
  d <> c -> exec no_flags (re_emphasis (c :: marker')) prev (d :: s) = None.
Proof.
  intros H. apply chr_eqb_neq in H.
  unfold exec, re_emphasis, seq. cbn [fold_right lit run atom_ok].
  now rewrite H.
Qed.

Lemma exec_emphasis_nil (prev : option ascii) :
  exec no_flags (re_emphasis (c :: marker')) prev [] = None.
Proof. reflexivity. Qed.

(** Text without the marker character is passed over. *)
Lemma sub_emphasis_copy (x s : str) (prev : option ascii) :
  lacks c x ->
  sub_from no_flags (re_emphasis (c :: marker')) tpl None 0 prev (x ++ s) =
  x ++ sub_from no_flags (re_emphasis (c :: marker')) tpl None 0 (after x prev) s.
Proof.
  intros Hx. apply sub_from_copy. intros x1 d x2 E.
  apply exec_emphasis_miss. intros ->. apply Hx. rewrite E.
  apply in_or_app. right. now left.
Qed.

Lemma sub_emphasis_plain (s : str) :
  lacks c s -> sub (re_emphasis (c :: marker')) tpl s 0 no_flags = s.
Proof.
  intros Hs. unfold sub. simpl Nat.eqb. cbv iota.
  rewrite <- (app_nil_r s) at 1. rewrite sub_emphasis_copy by exact Hs.
  rewrite sub_from_end by apply exec_emphasis_nil. apply app_nil_r.
Qed.

(** A marked span whose inner text lies on one line and lacks the
    (c :: marker') character is matched as a whole. *)
Lemma exec_emphasis_span (prev : option ascii) (x post : str) :
  x <> [] -> no_nl x -> lacks c x ->
  exec no_flags (re_emphasis (c :: marker')) prev (((c :: marker') ++ x ++ (c :: marker')) ++ post) =
  Some ((c :: marker') ++ x ++ (c :: marker'), [(1, x)]).
Proof.
  intros Hx Hn Hc. destruct x as [|d x]; [congruence|].
  apply no_nl_cons in Hn as [Hd Hn].
  unfold exec, re_emphasis, seq. cbn [fold_right run].
  rewrite run_lit. rewrite <- !app_assoc. rewrite strip_prefix_app.
  change ((d :: x) ++ (c :: marker') ++ post) with (d :: x ++ (c :: marker') ++ post).
  rewrite rep_step.
  2:{ simpl. now apply negb_true_iff, chr_eqb_neq. }
  rewrite rep_lazy_skip.
  - erewrite rep_lazy_stop; [reflexivity|].
    rewrite run_lit, strip_prefix_app.
    rewrite rev_app_distr, rev_involutive. simpl rev. simpl app.
    now rewrite !app_nil_r.
  - apply Forall_forall. intros e He. simpl.
    apply negb_true_iff, chr_eqb_neq. intros ->. now apply Hn.
  - intros m p e s He. rewrite run_lit. simpl strip_prefix.
    replace (chr_eqb e c) with false; [reflexivity|].
    symmetry. apply chr_eqb_neq. intros ->. apply Hc. now right.
Qed.

Lemma sub_emphasis_span (pre x post : str) :
  x <> [] -> no_nl x -> lacks c x -> lacks c pre -> lacks c post ->
  sub (re_emphasis (c :: marker')) tpl (pre ++ (c :: marker') ++ x ++ (c :: marker') ++ post) 0 no_flags =
  pre ++ expand tpl [(1, x)] ++ post.
Proof.
  intros Hx Hn Hc Hpre Hpost. unfold sub. simpl Nat.eqb. cbv iota.
  rewrite sub_emphasis_copy by exact Hpre. f_equal.
  replace ((c :: marker') ++ x ++ (c :: marker') ++ post) with (((c :: marker') ++ x ++ (c :: marker')) ++ post)
    by now rewrite <- !app_assoc.
  rewrite sub_from_match with (g := [(1, x)]).
  - f_equal. rewrite <- (app_nil_r post) at 1.
    rewrite sub_emphasis_copy by exact Hpost.
    rewrite sub_from_end by apply exec_emphasis_nil. apply app_nil_r.
  - discriminate.
  - now apply exec_emphasis_span.
Qed.

End Emphasis.

Lemma expand_tagged (open close x : str) :
  expand (tagged open close) [(1, x)] = open ++ x ++ close.
Proof. unfold expand, tagged. simpl. now rewrite app_nil_r. Qed.

Lemma lacks_wrapped (c : ascii) (pre open x close post : str) :
  lacks c pre -> lacks c open -> lacks c x -> lacks c close -> lacks c post ->
  lacks c (pre ++ (open ++ x ++ close) ++ post).
Proof. intros. repeat (apply lacks_app; split); assumption. Qed.

(** C7 as stated fails.  A span that runs over a line break is not
    matched by the triple pattern, and its outer asterisks are taken as
    italic markers of their own.  Nor is a span rendered as the nested
    elements around its inner text when the inner text holds a marker
    character and another one follows the span (the elements cross),
    when asterisks that close no span stand before it on the line (the
    triple pattern pairs them with the opening marker), when the inner
    text is empty, or when the span directly follows a span in two
    asterisks. *)
Lemma C7_span_not_nested :
  ~ (forall x : str,
       x <> [] ->
       convert_emphasis (L "***" ++ x ++ L "***") =
       L "<strong><em>" ++ x ++ L "</em></strong>")
  /\ convert_emphasis (L "***" ++ (L "two" ++ nl :: L "lines") ++ L "***") =
     L "<em>*</em>two" ++ nl :: L "lines<em>*</em>"
  /\ convert_emphasis (L "***a_b*** and _c") =
     L "<strong><em>a<em>b</em></strong> and </em>c"
  /\ convert_emphasis (L "***a ***x***") =
     L "<strong><em>a </em></strong>x<em>*</em>"
  /\ convert_emphasis (L "******") = L "<strong><em></strong></em>"
  /\ convert_emphasis (L "**a*****b***") =
     L "<strong>a<strong><em></strong>b</em></strong>".
Proof.
  split; [|repeat split; reflexivity].
  intros H. specialize (H (L "two" ++ nl :: L "lines") ltac:(discriminate)).
  vm_compute in H. discriminate.
Qed.

(** ** Paragraphs *)

Lemma sub_newline_from (p : str) (prev : option ascii) :
  sub_from no_flags re_newline [Txt (L " ")] None 0 prev p = nl_to_space p.
Proof.
  revert prev. induction p as [|c p IH]; intros prev; [reflexivity|].
  unfold re_newline in *. simpl nl_to_space.
  destruct (chr_eqb c nl) eqn:E.
  - change (c :: p) with ([c] ++ p).
    rewrite sub_from_match with (g := []); [|discriminate|].
    + simpl. now rewrite IH.
    + simpl app. rewrite exec_one. simpl. now rewrite E.
  - rewrite sub_from_keep; [now rewrite IH|].
    rewrite exec_one. simpl. now rewrite E.
Qed.

(** C9, as the code has it: a paragraph that is not empty once
    stripped and does not start with [<h], [<ul] or [<ol] is put in one
    paragraph element with each of its newlines replaced by a blank;
    the text [line one], newline, [line two] renders as one paragraph
    element around [line one line two]. *)
Theorem C9_paragraph_wrapped (p : str) :
  (Py.strip p <> [] ->
   Py.startswith (L "<h") (Py.strip p) = false ->
   Py.startswith (L "<ul") (Py.strip p) = false ->
   Py.startswith (L "<ol") (Py.strip p) = false ->
   wrap_paragraph p = Some (L "<p>" ++ nl_to_space (Py.strip p) ++ L "</p>"))
  /\ markdown_to_html (L "line one" ++ nl :: L "line two") =
     L "<p>line one line two</p>".
Proof.
  split; [|reflexivity].
  intros Hne Hh Hul Hol. unfold wrap_paragraph.
  destruct (Py.strip p) as [|c q] eqn:E; [congruence|].
  rewrite Hh, Hul, Hol. simpl orb. cbv iota.
  unfold sub. simpl Nat.eqb. cbv iota. now rewrite sub_newline_from.
Qed.

Lemma C9_paragraph_wrapped_witness :
  wrap_paragraph (L "  line one" ++ nl :: L "line two ") =
  Some (L "<p>" ++ nl_to_space (Py.strip (L "  line one" ++ nl :: L "line two "))
          ++ L "</p>").
Proof.
  apply (proj1 (C9_paragraph_wrapped (L "  line one" ++ nl :: L "line two ")));
    [discriminate | reflexivity | reflexivity | reflexivity].
Defined.

(** C9 as stated fails on a block such as [<hr>]: it starts with no
    header or list element, yet it is kept as it is. *)
Lemma C9_rule_not_wrapped :
  ~ (forall p : str,
       Py.strip p <> [] ->
       starts_with_block_tag (Py.strip p) = false ->
       wrap_paragraph p = Some (L "<p>" ++ nl_to_space (Py.strip p) ++ L "</p>"))
  /\ markdown_to_html (L "<hr>") = L "<hr>".
Proof.
  split; [|reflexivity].
  intros H. specialize (H (L "<hr>") ltac:(discriminate) eq_refl).
  vm_compute in H. discriminate.
Qed.

(** ** The header line as title *)

Lemma sub_from_spent (fl : flags) (r : regex) (tpl : list piece)
    (prev : option ascii) (s : str) :
  sub_from fl r tpl (Some 0) 0 prev s = s.
Proof. destruct s; reflexivity. Qed.

Lemma sub_from_match_once (fl : flags) (r : regex) (tpl : list piece)
    (m s : str) (g : caps) (prev : option ascii) :
  m <> [] ->
  exec fl r prev (m ++ s) = Some (m, g) ->
  sub_from fl r tpl (Some 1) 0 prev (m ++ s) = expand tpl g ++ s.
Proof.
  intros Hm H. destruct m as [|c m]; [congruence|].
  simpl app in *. simpl sub_from. rewrite H. f_equal.
  rewrite (sub_from_skip fl r tpl m s (Some 0) (Some c)).
  apply sub_from_spent.
Qed.

Lemma exec_title_line (t rest : str) :
  t <> [] -> no_nl t ->
  exec no_flags re_title_line None ((L "# " ++ t ++ [nl]) ++ rest) =
  Some (L "# " ++ t ++ [nl], []).
Proof.
  intros Ht Hn. destruct t as [|c t]; [congruence|].
  apply no_nl_cons in Hn as [Hc Hn].
  unfold exec, re_title_line, seq. cbn [fold_right run]. simpl at_bol. cbv iota.
  rewrite run_lit. rewrite <- !app_assoc. rewrite strip_prefix_app.
  change ((c :: t) ++ [nl] ++ rest) with (c :: t ++ nl :: rest).
  rewrite rep_step.
  2:{ simpl. now apply negb_true_iff, chr_eqb_neq. }
  erewrite rep_greedy_all.
  - reflexivity.
  - apply Forall_forall. intros x Hx. simpl.
    apply negb_true_iff, chr_eqb_neq. intros ->. now apply Hn.
  - reflexivity.
  - change (atom_ok no_flags (Lit nl) nl) with true. cbv iota.
    now rewrite !app_nil_r.
Qed.

(** A header on the first line, followed by a newline, gives the title
    and is removed from the content. *)
Lemma get_title_leading_header (md_file t rest : str) :
  t <> [] -> no_nl t ->
  get_title None md_file (L "# " ++ t ++ nl :: rest) = (t, rest).
Proof.
  intros Ht Hn. unfold get_title.
  assert (Hs : search (re_header (L "# ")) (L "# " ++ t ++ nl :: rest) multiline
               = Some [(1, t)]).
  { unfold search. apply search_from_hit with (m := L "# " ++ t).
    replace (L "# " ++ t ++ nl :: rest) with ((L "# " ++ t) ++ nl :: rest)
      by now rewrite <- app_assoc.
    rewrite header_exec_line.
    - unfold header_caps, header_text. rewrite strip_prefix_app.
      destruct t; [congruence|reflexivity].
    - now apply no_nl_check.
    - reflexivity.
    - apply no_nl_app. split; [now apply no_nl_check|exact Hn].
    - right. eauto. }
  rewrite Hs. simpl group. f_equal.
  unfold sub. simpl Nat.eqb. cbv iota.
  replace (L "# " ++ t ++ nl :: rest) with ((L "# " ++ t ++ [nl]) ++ rest)
    by now rewrite <- !app_assoc.
  rewrite sub_from_match_once with (g := []).
  - reflexivity.
  - discriminate.
  - now apply exec_title_line.
Qed.

(** C1 at inputs the program can receive: a header that is not on the
    first line, or that ends the file without a newline, gives the
    title and stays in the content, so that the rendered body still
    has the header. *)
Theorem C1_header_left_in_body :
  (get_title None (L "my-essay.md")
     (L "Intro." ++ nl :: nl :: L "# My Essay" ++ nl :: nl :: L "Body." ++ [nl])
   = (L "My Essay",
      L "Intro." ++ nl :: nl :: L "# My Essay" ++ nl :: nl :: L "Body." ++ [nl])
   /\ markdown_to_html
        (L "Intro." ++ nl :: nl :: L "# My Essay" ++ nl :: nl :: L "Body." ++ [nl])
      = L "<p>Intro.</p>" ++ separator ++ L "<h1>My Essay</h1>" ++ separator
          ++ L "<p>Body.</p>")
  /\ (get_title None (L "my-essay.md") (L "# My Essay")
      = (L "My Essay", L "# My Essay")
      /\ markdown_to_html (L "# My Essay") = L "<h1>My Essay</h1>").
Proof. repeat split; reflexivity. Qed.

(** ** filename_from_title *)

Lemma special_ok (c : ascii) :
  atom_ok no_flags (NotIn [Range "a" "z"; Range "0" "9"; Space; Chr "-"]) c
  = negb (slug_keep c).
Proof.
  unfold slug_keep, Py.is_lower, Py.is_digit. simpl.
  now rewrite orb_false_r, !orb_assoc.
Qed.

Lemma sub_special_from (s : str) (prev : option ascii) :
  sub_from no_flags re_special [] None 0 prev s = filter slug_keep s.
Proof.
  revert prev. induction s as [|c s IH]; intros prev.
  - reflexivity.
  - unfold re_special in *. simpl filter.
    destruct (slug_keep c) eqn:E.
    + rewrite sub_from_keep; [now rewrite IH|].
      rewrite exec_one, special_ok. now rewrite E.
    + change (c :: s) with ([c] ++ s).
      rewrite sub_from_match with (g := []); [apply IH|discriminate|].
      simpl app. rewrite exec_one, special_ok. now rewrite E.
Qed.

Lemma span_stop (fl : flags) (a : atom) (s : str) :
  exists w rest, s = w ++ rest /\ Forall (fun c => atom_ok fl a c = true) w
                 /\ stops fl a rest.
Proof.
  induction s as [|c s (w & rest & E & Hw & Hr)].
  - exists [], []. simpl. auto.
  - destruct (atom_ok fl a c) eqn:Ec.
    + exists (c :: w), rest. subst s. simpl. auto.
    + exists [], (c :: s). simpl. auto.
Qed.

Lemma collapse_run (w rest : str) :
  Forall (fun c => Py.is_space c = true) w -> stops no_flags Ws rest ->
  collapse_from true (w ++ rest) = collapse_from false rest.
Proof.
  intros Hw Hr. induction Hw as [|c w Hc Hw IH]; simpl.
  - destruct rest as [|c rest]; [reflexivity|]. simpl in *. now rewrite Hr.
  - now rewrite Hc.
Qed.

Lemma sub_spaces_from (s : str) (prev : option ascii) :
  sub_from no_flags re_spaces [Txt (L "-")] None 0 prev s = collapse_from false s.
Proof.
  remember (length s) as n eqn:Hn. revert s prev Hn.
  induction n as [n IH] using lt_wf_ind. intros s prev Hn.
  destruct s as [|c s]; [reflexivity|].
  destruct (Py.is_space c) eqn:Ec.
  - destruct (span_stop no_flags Ws s) as (w & rest & E & Hw & Hr). subst s.
    change (c :: w ++ rest) with ((c :: w) ++ rest).
    rewrite sub_from_match with (g := []).
    + simpl. rewrite Ec. rewrite collapse_run by assumption.
      f_equal. eapply IH; [|reflexivity]. subst n. simpl. rewrite length_app. lia.
    + discriminate.
    + unfold exec, re_spaces. cbn [run app]. rewrite rep_step by exact Ec.
      apply rep_greedy_all; auto.
  - rewrite sub_from_keep.
    + simpl. rewrite Ec. f_equal. eapply IH; [|reflexivity]. subst n. simpl. lia.
    + unfold exec, re_spaces. simpl. now rewrite Ec.
Qed.

Lemma filename_from_title_eq (title : str) :
  filename_from_title title = slug_filename title.
Proof.
  unfold filename_from_title, slug_filename, collapse_spaces, sub. simpl Nat.eqb.
  cbv iota. now rewrite sub_special_from, sub_spaces_from.
Qed.

Lemma collapse_slug_chars (s : str) (in_run : bool) :
  forallb slug_char (collapse_from in_run (filter slug_keep s)) = true.
Proof.
  revert in_run. induction s as [|c s IH]; intros in_run; [reflexivity|].
  simpl filter. destruct (slug_keep c) eqn:Ek; [|apply IH].
  simpl collapse_from. destruct (Py.is_space c) eqn:Es.
  - destruct in_run; simpl; apply IH.
  - simpl. rewrite IH, andb_true_r.
    unfold slug_keep in Ek. unfold slug_char. rewrite Es in Ek.
    now rewrite orb_false_r in Ek.
Qed.

Lemma unsluggable_filter (title : str) :
  unsluggable title = true -> filter slug_keep (Py.lower title) = [].
Proof.
  unfold unsluggable. induction title as [|c t IH]; [reflexivity|].
  simpl. intros H. apply andb_true_iff in H as [Hc Ht].
  apply negb_true_iff, orb_false_iff in Hc as [Hu Hk].
  unfold Py.lower_chr. rewrite Hu, Hk. now apply IH.
Qed.


(** ** main *)

Lemma str_eqb_refl (a : str) : str_eqb a a = true.
Proof. induction a as [|c a IH]; simpl; [reflexivity|]. now rewrite chr_eqb_refl. Qed.

(** C6: when the input path does not exist, the run ends with exit
    status 1 after printing the error line, and the files are the ones
    there were: nothing is written under [essays]. *)
Theorem C6_missing_input (tpl : template) (script_dir prog md_file : str)
    (more : list str) (w : world) :
  lookup md_file (files w) = None ->
  exists w',
    main tpl script_dir (prog :: md_file :: more) w = (Exit 1, w')
    /\ files w' = files w
    /\ printed w' = printed w ++ [L "Error: File '" ++ md_file ++ L "' not found"]
    /\ commands w' = commands w.
Proof.
  intros H. unfold main, exists_. rewrite H. simpl negb. cbv iota.
  eexists. split; [reflexivity|]. simpl. auto.
Qed.

Lemma C6_missing_input_witness :
  exists w',
    main (Template [] [] [] [] []) (L ".") [L "./publish.py"; L "drafts/none.md"]
         (World [(L "./essays", Directory)] [] []) = (Exit 1, w')
    /\ files w' = [(L "./essays", Directory)]
    /\ printed w' = [] ++ [L "Error: File '" ++ L "drafts/none.md" ++ L "' not found"]
    /\ commands w' = [].
Proof.
  apply (@C6_missing_input (Template [] [] [] [] []) (L ".") (L "./publish.py")
           (L "drafts/none.md") []
           (World [(L "./essays", Directory)] [] [])).
  reflexivity.
Defined.

(** C10: for every title the generated filename is a run of lowercase
    ASCII letters, digits and hyphens followed by [.html]; a title
    without any letter, digit, hyphen or whitespace gives the bare
    [.html], and a run of [main] with such a title writes the page to
    [essays/.html]. *)
Theorem C10_filename_charset (title : str) :
  (exists slug,
     filename_from_title title = slug ++ L ".html"
     /\ forallb slug_char slug = true)
  /\ (unsluggable title = true ->
      filename_from_title title = L ".html"
      /\ forall tpl script_dir prog md_file md_content more w,
           let essays_dir := Py.path_join script_dir (L "essays") in
           let output_file := Py.path_join essays_dir (L ".html") in
           lookup md_file (files w) = Some (File md_content) ->
           lookup essays_dir (files w) = Some Directory ->
           lookup output_file (files w) <> Some Directory ->
           exists w',
             main tpl script_dir (prog :: md_file :: title :: more) w = (Exit 0, w')
             /\ lookup output_file (files w') =
                Some (File (create_essay_html tpl title
                              (markdown_to_html md_content) default_date))).
Proof.
  split.
  - exists (collapse_spaces (filter slug_keep (Py.lower title))). split.
    + apply filename_from_title_eq.
    + apply collapse_slug_chars.
  - intros Hu.
    assert (Hf : filename_from_title title = L ".html").
    { rewrite filename_from_title_eq. unfold slug_filename.
      now rewrite unsluggable_filter. }
    split; [exact Hf|].
    intros tpl script_dir prog md_file md_content more w essays_dir output_file
           Hin Hdir Hout.
    unfold main, exists_. rewrite Hin. simpl negb. cbv iota.
    simpl hd_error. unfold get_title. rewrite Hf.
    fold essays_dir. fold output_file. rewrite Hdir.
    destruct (lookup output_file (files w)) as [[c|]|] eqn:Eo;
      try congruence;
      (match goal with
       | |- context [match lookup ?p ?v with _ => _ end] => destruct (lookup p v)
       end;
       eexists; (split; [reflexivity | simpl; now rewrite str_eqb_refl])).
Qed.

Lemma C10_filename_charset_witness :
  filename_from_title (L "?!") = L ".html"
  /\ exists w',
       main (Template [] [] [] [] []) (L ".")
            [L "./publish.py"; L "draft.md"; L "?!"]
            (World [(L "draft.md", File (L "text")); (L "./essays", Directory)] [] [])
       = (Exit 0, w')
       /\ lookup (L "./essays/.html") (files w') =
          Some (File (create_essay_html (Template [] [] [] [] []) (L "?!")
                        (markdown_to_html (L "text")) default_date)).
Proof.
  destruct (proj2 (C10_filename_charset (L "?!")) eq_refl) as [Hf Hm].
  split; [exact Hf|].
  apply (Hm (Template [] [] [] [] []) (L ".") (L "./publish.py") (L "draft.md")
            (L "text") []
            (World [(L "draft.md", File (L "text")); (L "./essays", Directory)] [] []));
    [reflexivity | reflexivity | discriminate].
Defined.

(** * Further properties of the program *)

(** ** Front-matter, once more *)

(** X1: the front-matter substitution removes the text from a leading
    fence line up to and including the first later fence, wherever
    that fence stands, and leaves every other text as it is. *)
Theorem X1_frontmatter_block (t : str) :
  strip_frontmatter t =
  match strip_prefix fence t with
  | Some u =>
      match find_split fence u with
      | Some (_, body) => body
      | None => t
      end
  | None => t
  end.
Proof.
  rewrite strip_frontmatter_eq. unfold frontmatter_rest.
  destruct (strip_prefix fence t) as [u|]; [|reflexivity].
  destruct (find_split fence u) as [[x v]|]; reflexivity.
Qed.

(** X2: the front-matter substitution only ever removes a prefix: its
    result is a suffix of the input, so the body is never altered. *)
Theorem X2_frontmatter_suffix (t : str) :
  exists removed, t = removed ++ strip_frontmatter t.
Proof.
  rewrite strip_frontmatter_eq. unfold frontmatter_rest.
  destruct (strip_prefix fence t) as [u|] eqn:Eu; [|now exists []].
  destruct (find_split fence u) as [[x v]|] eqn:Ef; [|now exists []].
  apply strip_prefix_Some in Eu. apply find_split_Some in Ef. subst u t.
  exists (fence ++ x ++ fence). simpl. now rewrite <- !app_assoc.
Qed.

(** ** Headers, once more *)

Lemma header_line_no_nl (l : str) : no_nl l -> no_nl (header_line l).
Proof.
  intros H. unfold header_line.
  repeat (apply header_conv_no_nl; [now apply no_nl_check|now apply no_nl_check|]).
  exact H.
Qed.

Lemma header_line_tag (s : str) : header_line ("<"%char :: s) = "<"%char :: s.
Proof. reflexivity. Qed.

Lemma header_conv_cases (marker open close l : str) :
  header_conv marker ("<"%char :: open) close l = l
  \/ exists s, header_conv marker ("<"%char :: open) close l = "<"%char :: s.
Proof.
  unfold header_conv. destruct (header_text marker l).
  - right. eexists. reflexivity.
  - now left.
Qed.

Lemma header_line_cases (l : str) :
  header_line l = l \/ exists s, header_line l = "<"%char :: s.
Proof.
  unfold header_line.
  destruct (header_conv_cases (L "#### ") (L "h4>") (L "</h4>") l) as [H|[s H]];
    change ("<"%char :: L "h4>") with (L "<h4>") in H; rewrite H;
    [|right; eexists; reflexivity].
  destruct (header_conv_cases (L "### ") (L "h3>") (L "</h3>") l) as [H3|[s H3]];
    change ("<"%char :: L "h3>") with (L "<h3>") in H3; rewrite H3;
    [|right; eexists; reflexivity].
  destruct (header_conv_cases (L "## ") (L "h2>") (L "</h2>") l) as [H2|[s H2]];
    change ("<"%char :: L "h2>") with (L "<h2>") in H2; rewrite H2;
    [|right; eexists; reflexivity].
  apply (header_conv_cases (L "# ") (L "h1>") (L "</h1>") l).
Qed.

Lemma header_line_idem (l : str) : header_line (header_line l) = header_line l.
Proof.
  destruct (header_line_cases l) as [H|[s H]]; rewrite H.
  - exact H.
  - apply header_line_tag.
Qed.

(** X3: the four header substitutions work line by line: the result
    is the text whose lines are the converted lines of the input, so
    no line is joined, split or moved. *)
Theorem X3_headers_by_line (text : str) :
  convert_headers text = unlines (map header_line (lines text)).
Proof. apply convert_headers_text. Qed.

(** X4: header conversion is idempotent: converting an already
    converted text changes nothing. *)
Theorem X4_headers_idempotent (text : str) :
  convert_headers (convert_headers text) = convert_headers text.
Proof.
  rewrite (convert_headers_text text).
  rewrite convert_headers_lines.
  - rewrite map_map. f_equal. apply map_ext. intros. apply header_line_idem.
  - apply map_not_nil, lines_not_nil.
  - pose proof (lines_no_nl text) as H. induction H; simpl; constructor; auto.
    now apply header_line_no_nl.
Qed.

(** ** The title, once more *)

(** What a successful repetition has read: a stretch of admissible
    characters of at least the required length, after which the
    continuation succeeded. *)
Lemma rep_sound (fl : flags) (R : Type) (a : atom) (gr : bool) (k : cont R)
    (s : str) (min : nat) (acc : str) (prev : option ascii) (g : caps) (res : R) :
  rep fl a gr k min acc prev s g = Some res ->
  exists t rest p,
    s = t ++ rest /\ Forall (fun c => atom_ok fl a c = true) t
    /\ min <= length t /\ k (rev acc ++ t) p rest g = Some res.
Proof.
  revert min acc prev. induction s as [|c s IH]; intros min acc prev H.
  - destruct min as [|min]; [|discriminate].
    exists [], [], prev. repeat split; auto. rewrite app_nil_r.
    destruct gr; simpl in H; [exact H|].
    destruct (k (rev acc) prev [] g); [exact H|discriminate].
  - assert (Hrec : forall n, rep fl a gr k n (c :: acc) (Some c) s g = Some res ->
                    atom_ok fl a c = true ->
                    exists t rest p,
                      c :: s = t ++ rest
                      /\ Forall (fun c => atom_ok fl a c = true) t
                      /\ S n <= length t /\ k (rev acc ++ t) p rest g = Some res).
    { intros n Hn Hc. apply IH in Hn as (t & rest & p & E & Ht & Hl & Hk).
      exists (c :: t), rest, p. subst s. simpl in Hk. rewrite <- app_assoc in Hk.
      repeat split; auto. simpl. lia. }
    assert (Hnow : forall p, k (rev acc) p (c :: s) g = Some res ->
                    exists t rest p,
                      c :: s = t ++ rest
                      /\ Forall (fun c => atom_ok fl a c = true) t
                      /\ 0 <= length t /\ k (rev acc ++ t) p rest g = Some res).
    { intros p Hk. exists [], (c :: s), p. repeat split; auto.
      now rewrite app_nil_r. }
    destruct min as [|min]; simpl in H.
    + destruct gr.
      * destruct (atom_ok fl a c) eqn:Ec; [|now apply (Hnow prev)].
        destruct (rep fl a true k 0 (c :: acc) (Some c) s g) eqn:Er.
        -- inversion H; subst. destruct (Hrec 0 Er eq_refl) as (t & rest & p & ? & ? & ? & ?).
           exists t, rest, p. repeat split; auto. lia.
        -- now apply (Hnow prev).
      * destruct (k (rev acc) prev (c :: s) g) eqn:Ek.
        -- inversion H; subst. now apply (Hnow prev).
        -- destruct (atom_ok fl a c) eqn:Ec; [|discriminate].
           destruct (Hrec 0 H eq_refl) as (t & rest & p & ? & ? & ? & ?).
           exists t, rest, p. repeat split; auto. lia.
    + destruct (atom_ok fl a c) eqn:Ec; [|discriminate].
      now apply Hrec.
Qed.

(** The pattern that removes the title line matches only a text that
    starts with a header line and its newline. *)
Lemma exec_title_line_sound (text m : str) (g : caps) :
  exec no_flags re_title_line None text = Some (m, g) ->
  exists t rest, t <> [] /\ no_nl t /\ text = L "# " ++ t ++ nl :: rest.
Proof.
  unfold exec, re_title_line, seq. cbn [fold_right run]. simpl at_bol. cbv iota.
  rewrite run_lit.
  destruct (strip_prefix (L "# ") text) as [u|] eqn:Eu; [|discriminate].
  apply strip_prefix_Some in Eu. intros H.
  apply rep_sound in H as (t & rest & p & E & Ht & Hl & Hk).
  cbn [run] in Hk. destruct rest as [|c rest]; [discriminate|].
  destruct (atom_ok no_flags (Lit nl) c) eqn:Ec; [|discriminate].
  simpl in Ec. apply chr_eqb_eq in Ec. subst c.
  exists t, rest. repeat split.
  - intros ->. simpl in Hl. lia.
  - intros Hin. rewrite Forall_forall in Ht. specialize (Ht _ Hin).
    cbv in Ht. discriminate Ht.
  - now rewrite Eu, E.
Qed.

Lemma sub_from_anchored_any (fl : flags) (r : regex) (tpl : list piece)
    (lim : option nat) (s : str) (c : ascii) :
  MULTILINE fl = false ->
  sub_from fl (Seq Bol r) tpl lim 0 (Some c) s = s.
Proof.
  intros Hf. revert c. induction s as [|d s IH]; intros c.
  - destruct lim as [[|n]|]; simpl; unfold exec; simpl; now rewrite ?Hf.
  - destruct lim as [[|n]|]; [reflexivity| |];
      simpl sub_from; unfold exec; simpl run; rewrite Hf; simpl;
      now rewrite IH.
Qed.

Lemma sub_title_line_none (text : str) :
  exec no_flags re_title_line None text = None ->
  sub re_title_line [] text 1 no_flags = text.
Proof.
  intros H. unfold sub. simpl Nat.eqb. cbv iota.
  destruct text as [|c s]; [reflexivity|].
  cbn [sub_from]. rewrite H.
  f_equal. now apply (sub_from_anchored_any no_flags).
Qed.

(** X5: the title is resolved by priority: the explicit title when
    one is given; else the text of the first line, anywhere in the raw
    input, that is [# ] followed by at least one character; else the
    title made from the filename. *)
Theorem X5_title_priority (explicit : option str) (md_file md_content : str) :
  fst (get_title explicit md_file md_content) =
  match explicit with
  | Some title => title
  | None =>
      match first_h1 (lines md_content) with
      | Some t => t
      | None => title_from_filename md_file
      end
  end.
Proof.
  destruct explicit as [title|]; [reflexivity|].
  rewrite get_title_text. now destruct (first_h1 (lines md_content)).
Qed.

(** X6: a header on the first line, followed by a newline, becomes the
    title and is removed from the content; the rest of the content is
    handed on as it is, later header lines included. *)
Theorem X6_leading_header_removed (md_file t rest : str) :
  t <> [] -> no_nl t ->
  get_title None md_file (L "# " ++ t ++ nl :: rest) = (t, rest).
Proof. apply get_title_leading_header. Qed.

Lemma X6_leading_header_removed_witness :
  get_title None (L "a.md") (L "# " ++ L "My Essay" ++ nl :: L "# More") =
  (L "My Essay", L "# More").
Proof.
  apply (@X6_leading_header_removed (L "a.md") (L "My Essay") (L "# More")).
  - discriminate.
  - apply no_nl_check. reflexivity.
Defined.

(** X7: the content is handed on unchanged unless the text starts with
    a header line and its newline: a title found further down, or on a
    last line without a newline, stays in the content. *)
Theorem X7_content_kept (explicit : option str) (md_file md_content : str) :
  (forall t rest, t <> [] -> no_nl t ->
     md_content <> L "# " ++ t ++ nl :: rest) ->
  snd (get_title explicit md_file md_content) = md_content.
Proof.
  intros H. destruct explicit as [title|]; [reflexivity|].
  rewrite get_title_text. destruct (first_h1 (lines md_content)); [|reflexivity].
  simpl snd. apply sub_title_line_none.
  destruct (exec no_flags re_title_line None md_content) as [[m g]|] eqn:E;
    [|reflexivity].
  apply exec_title_line_sound in E as (t & rest & Ht & Hn & Eq).
  now destruct (H t rest Ht Hn).
Qed.

Lemma X7_content_kept_witness :
  snd (get_title None (L "a.md") (L "Intro" ++ nl :: L "# Title" ++ [nl])) =
  L "Intro" ++ nl :: L "# Title" ++ [nl].
Proof.
  apply (@X7_content_kept None (L "a.md") (L "Intro" ++ nl :: L "# Title" ++ [nl])).
  intros t rest _ _ H. discriminate H.
Defined.

(** ** Inline constructs *)

(** A pattern that begins with a literal character matches nowhere in
    a text without that character. *)
Lemma sub_first_char_absent (fl : flags) (c : ascii) (r : regex)
    (tpl : list piece) (x s : str) (prev : option ascii) :
  lacks c x ->
  sub_from fl (Seq (One (Lit c)) r) tpl None 0 prev (x ++ s) =
  x ++ sub_from fl (Seq (One (Lit c)) r) tpl None 0 (after x prev) s.
Proof.
  intros Hx. apply sub_from_copy. intros x1 d x2 E.
  unfold exec. cbn [run atom_ok].
  replace (chr_eqb d c) with false; [reflexivity|].
  symmetry. apply chr_eqb_neq. intros ->. apply Hx. rewrite E.
  apply in_or_app. right. now left.
Qed.

Lemma sub_first_char_plain (fl : flags) (c : ascii) (r : regex)
    (tpl : list piece) (s : str) :
  lacks c s -> sub (Seq (One (Lit c)) r) tpl s 0 fl = s.
Proof.
  intros Hs. unfold sub. simpl Nat.eqb. cbv iota.
  rewrite <- (app_nil_r s) at 1. rewrite sub_first_char_absent by exact Hs.
  rewrite sub_from_end by reflexivity. apply app_nil_r.
Qed.

Lemma inline_free_lacks (t : str) :
  inline_free t = true ->
  lacks "*" t /\ lacks "_" t /\ lacks "[" t /\ lacks "`" t.
Proof.
  unfold inline_free, inline_char. intros H. rewrite forallb_forall in H.
  repeat split; intros Hin; specialize (H _ Hin);
    rewrite negb_true_iff, !orb_false_iff in H;
    destruct H as [[[H1 H2] H3] H4];
    rewrite chr_eqb_refl in *; discriminate.
Qed.

Lemma inline_unchanged (t : str) :
  inline_free t = true ->
  convert_code (convert_links (convert_emphasis t)) = t.
Proof.
  intros H. apply inline_free_lacks in H as (Hs & Hu & Hb & Hq).
  unfold convert_code, convert_links, convert_emphasis.
  rewrite (@sub_emphasis_plain "*" (L "**")) by exact Hs.
  rewrite (@sub_emphasis_plain "*" (L "*")) by exact Hs.
  rewrite (@sub_emphasis_plain "*" []) by exact Hs.
  rewrite (@sub_emphasis_plain "_" (L "__")) by exact Hu.
  rewrite (@sub_emphasis_plain "_" (L "_")) by exact Hu.
  rewrite (@sub_emphasis_plain "_" []) by exact Hu.
  unfold re_link, re_code, seq. cbn [fold_right].
  rewrite (@sub_first_char_plain no_flags "[") by exact Hb.
  now rewrite (@sub_first_char_plain no_flags "`") by exact Hq.
Qed.

(** X8: a text without asterisk, underscore, opening bracket and
    backtick passes through the emphasis, link and code substitutions
    unchanged; in particular [<], [>] and [&] are not escaped. *)
Theorem X8_inline_free_unchanged (t : str) :
  inline_free t = true ->
  convert_code (convert_links (convert_emphasis t)) = t.
Proof. apply inline_unchanged. Qed.

Lemma X8_inline_free_unchanged_witness :
  convert_code (convert_links (convert_emphasis (L "a < b & c > d"))) =
  L "a < b & c > d".
Proof. apply (@X8_inline_free_unchanged (L "a < b & c > d")). reflexivity. Defined.

(** The pattern of inline code on a span. *)
Lemma exec_code_span (prev : option ascii) (x post : str) :
  x <> [] -> lacks "`" x ->
  exec no_flags re_code prev ((L "`" ++ x ++ L "`") ++ post) =
  Some (L "`" ++ x ++ L "`", [(1, x)]).
Proof.
  intros Hx Hq. destruct x as [|d x]; [congruence|].
  assert (Hok : Forall (fun c => atom_ok no_flags (NotIn [Chr "`"]) c = true) (d :: x)).
  { apply Forall_forall. intros e He. simpl. rewrite orb_false_r.
    apply negb_true_iff, chr_eqb_neq. intros ->. now apply Hq. }
  inversion Hok as [|? ? Hd Hx']; subst.
  unfold exec, re_code, seq. cbn [fold_right run].
  rewrite <- !app_assoc. simpl app at 1. cbn [atom_ok]. rewrite chr_eqb_refl.
  change ((d :: x) ++ L "`" ++ post) with (d :: x ++ L "`" ++ post).
  rewrite rep_step by exact Hd.
  erewrite rep_greedy_all; [reflexivity|exact Hx'|reflexivity|].
  now rewrite chr_eqb_refl.
Qed.

(** X9: a span between two backticks, not empty and without a
    backtick, becomes a code element around the same text, whether or
    not it runs over several lines. *)
Theorem X9_code_span (pre x post : str) :
  x <> [] -> lacks "`" pre -> lacks "`" x -> lacks "`" post ->
  convert_code (pre ++ L "`" ++ x ++ L "`" ++ post) =
  pre ++ L "<code>" ++ x ++ L "</code>" ++ post.
Proof.
  intros Hx Hpre Hq Hpost. unfold convert_code, sub. simpl Nat.eqb. cbv iota.
  unfold re_code at 1, seq. cbn [fold_right].
  rewrite sub_first_char_absent by exact Hpre. f_equal.
  change (Seq (One (Lit "`")) (Seq (Grp 1 (Rep (NotIn [Chr "`"]) 1 true))
            (Seq (One (Lit "`")) Emp))) with re_code.
  replace (L "`" ++ x ++ L "`" ++ post) with ((L "`" ++ x ++ L "`") ++ post)
    by now rewrite <- !app_assoc.
  rewrite sub_from_match with (g := [(1, x)]);
    [|discriminate|now apply exec_code_span].
  rewrite expand_tagged. rewrite <- !app_assoc. do 3 f_equal.
  unfold re_code, seq. cbn [fold_right].
  rewrite <- (app_nil_r post) at 1. rewrite sub_first_char_absent by exact Hpost.
  rewrite sub_from_end by reflexivity. apply app_nil_r.
Qed.

Lemma X9_code_span_witness :
  convert_code (L "run " ++ L "`" ++ (L "a" ++ nl :: L "b") ++ L "`" ++ L " now") =
  L "run " ++ L "<code>" ++ (L "a" ++ nl :: L "b") ++ L "</code>" ++ L " now".
Proof.
  apply (@X9_code_span (L "run ") (L "a" ++ nl :: L "b") (L " now")).
  - discriminate.
  - apply lacks_check. reflexivity.
  - apply lacks_check. reflexivity.
  - apply lacks_check. reflexivity.
Defined.

Lemma not_in_ok (c : ascii) (x : str) :
  lacks c x -> Forall (fun d => atom_ok no_flags (NotIn [Chr c]) d = true) x.
Proof.
  intros H. apply Forall_forall. intros e He. simpl. rewrite orb_false_r.
  apply negb_true_iff, chr_eqb_neq. intros ->. now apply H.
Qed.

(** The pattern of a link on a link. *)
Lemma exec_link_span (prev : option ascii) (t u post : str) :
  t <> [] -> lacks "]" t -> u <> [] -> lacks ")" u ->
  exec no_flags re_link prev ((L "[" ++ t ++ L "](" ++ u ++ L ")") ++ post) =
  Some (L "[" ++ t ++ L "](" ++ u ++ L ")", [(2, u); (1, t)]).
Proof.
  intros Ht Hct Hu Hcu.
  destruct t as [|a t]; [congruence|]. destruct u as [|b u]; [congruence|].
  pose proof (not_in_ok Hct) as Hokt. pose proof (not_in_ok Hcu) as Hoku.
  inversion Hokt as [|? ? Ha Ht']; subst. inversion Hoku as [|? ? Hb Hu']; subst.
  unfold exec, re_link, seq. cbn [fold_right run].
  rewrite <- !app_assoc. simpl app at 1. cbn [atom_ok]. rewrite chr_eqb_refl.
  change ((a :: t) ++ L "](" ++ (b :: u) ++ L ")" ++ post)
    with (a :: t ++ L "](" ++ (b :: u) ++ L ")" ++ post).
  rewrite rep_step by exact Ha.
  erewrite rep_greedy_all; [reflexivity|exact Ht'|reflexivity|].
  simpl app. cbn [atom_ok]. rewrite !chr_eqb_refl.
  rewrite rep_step by exact Hb.
  erewrite rep_greedy_all; [reflexivity|exact Hu'|reflexivity|].
  cbn [atom_ok]. rewrite chr_eqb_refl. reflexivity.
Qed.

(** X10: a link [[t](u)] with non-empty text without closing bracket
    and non-empty address without closing parenthesis becomes an
    anchor element with the address and the text copied as they are,
    nothing escaped. *)
Theorem X10_link (pre t u post : str) :
  t <> [] -> lacks "]" t -> u <> [] -> lacks ")" u ->
  lacks "[" pre -> lacks "[" post ->
  convert_links (pre ++ L "[" ++ t ++ L "](" ++ u ++ L ")" ++ post) =
  pre ++ L "<a href=" ++ dquote :: u ++ dquote :: L ">" ++ t ++ L "</a>" ++ post.
Proof.
  intros Ht Hct Hu Hcu Hpre Hpost. unfold convert_links, sub.
  simpl Nat.eqb. cbv iota.
  unfold re_link at 1, seq. cbn [fold_right].
  rewrite sub_first_char_absent by exact Hpre. f_equal.
  match goal with
  | |- sub_from _ ?r _ _ _ _ _ = _ => change r with re_link
  end.
  replace (L "[" ++ t ++ L "](" ++ u ++ L ")" ++ post)
    with ((L "[" ++ t ++ L "](" ++ u ++ L ")") ++ post)
    by now rewrite <- !app_assoc.
  rewrite sub_from_match with (g := [(2, u); (1, t)]);
    [|discriminate|now apply exec_link_span].
  unfold expand. simpl map. simpl concat.
  unfold re_link, seq. cbn [fold_right].
  rewrite <- (app_nil_r post) at 1. rewrite sub_first_char_absent by exact Hpost.
  rewrite sub_from_end by reflexivity. rewrite app_nil_r.
  simpl. repeat (rewrite <- app_assoc; simpl). reflexivity.
Qed.

Lemma X10_link_witness :
  convert_links (L "see " ++ L "[" ++ L "my <site>" ++ L "](" ++ L "http://x.org/?a&b"
                   ++ L ")" ++ L ".") =
  L "see " ++ L "<a href=" ++ dquote :: L "http://x.org/?a&b" ++ dquote :: L ">"
    ++ L "my <site>" ++ L "</a>" ++ L ".".
Proof.
  apply (@X10_link (L "see ") (L "my <site>") (L "http://x.org/?a&b") (L ".")).
  - discriminate.
  - apply lacks_check. reflexivity.
  - discriminate.
  - apply lacks_check. reflexivity.
  - apply lacks_check. reflexivity.
  - apply lacks_check. reflexivity.
Defined.

(** *** Bold and italic *)

Lemma exec_emphasis_no_prefix (marker : str) (prev : option ascii) (s : str) :
  strip_prefix marker s = None ->
  exec no_flags (re_emphasis marker) prev s = None.
Proof.
  intros H. unfold exec, re_emphasis, seq. cbn [fold_right run].
  now rewrite run_lit, H.
Qed.

(** A run of the marker character shorter than the marker, followed
    by another character or by the end, does not start with the
    marker. *)
Lemma strip_prefix_short_run (c : ascii) (k j : nat) (rest : str) :
  j < k -> lacks c (firstn 1 rest) ->
  strip_prefix (repeat c k) (repeat c j ++ rest) = None.
Proof.
  revert k. induction j as [|j IH]; intros k Hk Hr.
  - destruct k as [|k]; [lia|]. simpl.
    destruct rest as [|d rest]; [reflexivity|].
    replace (chr_eqb d c) with false; [reflexivity|].
    symmetry. apply chr_eqb_neq. intros ->. apply Hr. now left.
  - destruct k as [|k]; [lia|]. simpl. rewrite chr_eqb_refl.
    apply IH; [lia|exact Hr].
Qed.

Lemma repeat_suffix (c d : ascii) (j : nat) (x1 x2 : str) :
  repeat c j = x1 ++ d :: x2 ->
  d :: x2 = repeat c (S (length x2)) /\ S (length x2) <= j.
Proof.
  revert j. induction x1 as [|e x1 IH]; intros j E.
  - destruct j as [|j]; [discriminate|]. simpl in E. inversion E; subst.
    rewrite repeat_length. split; [reflexivity|lia].
  - destruct j as [|j]; [discriminate|]. simpl in E. inversion E; subst.
    destruct (IH j H1) as [H2 H3]. split; [exact H2|lia].
Qed.

Lemma sub_emphasis_run (c : ascii) (k j : nat) (tpl : list piece)
    (rest : str) (prev : option ascii) :
  j < k -> lacks c (firstn 1 rest) ->
  sub_from no_flags (re_emphasis (repeat c k)) tpl None 0 prev (repeat c j ++ rest) =
  repeat c j ++
  sub_from no_flags (re_emphasis (repeat c k)) tpl None 0 (after (repeat c j) prev) rest.
Proof.
  intros Hk Hr. apply sub_from_copy. intros x1 d x2 E.
  apply exec_emphasis_no_prefix.
  apply repeat_suffix in E as [E Hl].
  change (d :: x2 ++ rest) with ((d :: x2) ++ rest). rewrite E.
  apply strip_prefix_short_run; [lia|exact Hr].
Qed.

Lemma lacks_first (c : ascii) (s : str) : lacks c s -> lacks c (firstn 1 s).
Proof.
  intros H Hin. apply H. destruct s as [|d s]; [destruct Hin|].
  simpl in Hin. destruct Hin as [->|[]]. now left.
Qed.

(** A marked span with fewer marker characters than the pattern asks
    for is left alone by that pattern. *)
Lemma sub_emphasis_short (c : ascii) (k j : nat) (tpl : list piece)
    (pre x post : str) :
  j < k -> x <> [] -> lacks c pre -> lacks c x -> lacks c post ->
  sub (re_emphasis (repeat c k)) tpl
      (pre ++ repeat c j ++ x ++ repeat c j ++ post) 0 no_flags =
  pre ++ repeat c j ++ x ++ repeat c j ++ post.
Proof.
  intros Hk Hx Hpre Hcx Hpost. unfold sub. simpl Nat.eqb. cbv iota.
  destruct k as [|k]; [lia|]. change (repeat c (S k)) with (c :: repeat c k).
  rewrite sub_emphasis_copy by exact Hpre. f_equal.
  change (c :: repeat c k) with (repeat c (S k)).
  rewrite sub_emphasis_run; [f_equal|exact Hk|].
  2:{ destruct x as [|d x]; [congruence|]. intros [E|[]]. apply Hcx. now left. }
  change (repeat c (S k)) with (c :: repeat c k).
  rewrite sub_emphasis_copy by exact Hcx. f_equal.
  change (c :: repeat c k) with (repeat c (S k)).
  rewrite sub_emphasis_run; [f_equal|exact Hk|now apply lacks_first].
  change (repeat c (S k)) with (c :: repeat c k).
  rewrite <- (app_nil_r post) at 1. rewrite sub_emphasis_copy by exact Hpost.
  rewrite sub_from_end by apply exec_emphasis_nil. apply app_nil_r.
Qed.

Lemma lacks_marked (c : ascii) (m pre x post : str) :
  lacks c m -> lacks c pre -> lacks c x -> lacks c post ->
  lacks c (pre ++ m ++ x ++ m ++ post).
Proof. intros. repeat (apply lacks_app; split); assumption. Qed.

(** X11: a span in double asterisks or double underscores whose inner
    text is not empty, lies on one line and has no asterisk or
    underscore, in a text without other asterisks and underscores,
    becomes a strong element: the triple pattern, tried first, leaves
    it alone. *)
Theorem X11_bold (pre x post : str) :
  x <> [] -> no_nl x ->
  lacks "*" pre -> lacks "_" pre ->
  lacks "*" x -> lacks "_" x ->
  lacks "*" post -> lacks "_" post ->
  convert_emphasis (pre ++ L "**" ++ x ++ L "**" ++ post) =
  pre ++ (L "<strong>" ++ x ++ L "</strong>") ++ post
  /\ convert_emphasis (pre ++ L "__" ++ x ++ L "__" ++ post) =
     pre ++ (L "<strong>" ++ x ++ L "</strong>") ++ post.
Proof.
  intros Hx Hn Hsp Hup Hsx Hux Hsq Huq.
  assert (Hs : lacks "*" (pre ++ (L "<strong>" ++ x ++ L "</strong>") ++ post)).
  { apply lacks_wrapped; auto; now apply lacks_check. }
  assert (Hu : lacks "_" (pre ++ (L "<strong>" ++ x ++ L "</strong>") ++ post)).
  { apply lacks_wrapped; auto; now apply lacks_check. }
  unfold convert_emphasis. split.
  - rewrite (@sub_emphasis_short "*" 3 2 _ pre x post) by (auto; lia).
    rewrite (@sub_emphasis_span "*" (L "*") _ pre x post); auto.
    rewrite expand_tagged.
    rewrite (@sub_emphasis_plain "*" []) by exact Hs.
    rewrite (@sub_emphasis_plain "_" (L "__")) by exact Hu.
    rewrite (@sub_emphasis_plain "_" (L "_")) by exact Hu.
    now rewrite (@sub_emphasis_plain "_" []) by exact Hu.
  - assert (Hs' : lacks "*" (pre ++ L "__" ++ x ++ L "__" ++ post)).
    { apply lacks_marked; auto. now apply lacks_check. }
    rewrite (@sub_emphasis_plain "*" (L "**")) by exact Hs'.
    rewrite (@sub_emphasis_plain "*" (L "*")) by exact Hs'.
    rewrite (@sub_emphasis_plain "*" []) by exact Hs'.
    rewrite (@sub_emphasis_short "_" 3 2 _ pre x post) by (auto; lia).
    rewrite (@sub_emphasis_span "_" (L "_") _ pre x post); auto.
    rewrite expand_tagged.
    now rewrite (@sub_emphasis_plain "_" []) by exact Hu.
Qed.

Lemma X11_bold_witness :
  convert_emphasis (L "a " ++ L "**" ++ L "b c" ++ L "**" ++ L " d") =
  L "a " ++ (L "<strong>" ++ L "b c" ++ L "</strong>") ++ L " d"
  /\ convert_emphasis (L "a " ++ L "__" ++ L "b c" ++ L "__" ++ L " d") =
     L "a " ++ (L "<strong>" ++ L "b c" ++ L "</strong>") ++ L " d".
Proof.
  apply (@X11_bold (L "a ") (L "b c") (L " d"));
    try discriminate;
    try (apply no_nl_check; reflexivity);
    apply lacks_check; reflexivity.
Defined.

(** X12: a span in single asterisks or single underscores whose inner
    text is not empty, lies on one line and has no asterisk or
    underscore, in a text without other asterisks and underscores,
    becomes an emphasis element: the triple and double patterns, tried
    first, leave it alone. *)
Theorem X12_italic (pre x post : str) :
  x <> [] -> no_nl x ->
  lacks "*" pre -> lacks "_" pre ->
  lacks "*" x -> lacks "_" x ->
  lacks "*" post -> lacks "_" post ->
  convert_emphasis (pre ++ L "*" ++ x ++ L "*" ++ post) =
  pre ++ (L "<em>" ++ x ++ L "</em>") ++ post
  /\ convert_emphasis (pre ++ L "_" ++ x ++ L "_" ++ post) =
     pre ++ (L "<em>" ++ x ++ L "</em>") ++ post.
Proof.
  intros Hx Hn Hsp Hup Hsx Hux Hsq Huq.
  assert (Hs : lacks "*" (pre ++ (L "<em>" ++ x ++ L "</em>") ++ post)).
  { apply lacks_wrapped; auto; now apply lacks_check. }
  assert (Hu : lacks "_" (pre ++ (L "<em>" ++ x ++ L "</em>") ++ post)).
  { apply lacks_wrapped; auto; now apply lacks_check. }
  unfold convert_emphasis. split.
  - rewrite (@sub_emphasis_short "*" 3 1 _ pre x post) by (auto; lia).
    rewrite (@sub_emphasis_short "*" 2 1 _ pre x post) by (auto; lia).
    rewrite (@sub_emphasis_span "*" [] _ pre x post); auto.
    rewrite expand_tagged.
    rewrite (@sub_emphasis_plain "_" (L "__")) by exact Hu.
    rewrite (@sub_emphasis_plain "_" (L "_")) by exact Hu.
    now rewrite (@sub_emphasis_plain "_" []) by exact Hu.
  - assert (Hs' : lacks "*" (pre ++ L "_" ++ x ++ L "_" ++ post)).
    { apply lacks_marked; auto. now apply lacks_check. }
    rewrite (@sub_emphasis_plain "*" (L "**")) by exact Hs'.
    rewrite (@sub_emphasis_plain "*" (L "*")) by exact Hs'.
    rewrite (@sub_emphasis_plain "*" []) by exact Hs'.
    rewrite (@sub_emphasis_short "_" 3 1 _ pre x post) by (auto; lia).
    rewrite (@sub_emphasis_short "_" 2 1 _ pre x post) by (auto; lia).
    now rewrite (@sub_emphasis_span "_" [] _ pre x post).
Qed.

Lemma X12_italic_witness :
  convert_emphasis (L "a " ++ L "*" ++ L "b c" ++ L "*" ++ L " d") =
  L "a " ++ (L "<em>" ++ L "b c" ++ L "</em>") ++ L " d"
  /\ convert_emphasis (L "a " ++ L "_" ++ L "b c" ++ L "_" ++ L " d") =
     L "a " ++ (L "<em>" ++ L "b c" ++ L "</em>") ++ L " d".
Proof.
  apply (@X12_italic (L "a ") (L "b c") (L " d"));
    try discriminate;
    try (apply no_nl_check; reflexivity);
    apply lacks_check; reflexivity.
Defined.

(** ** Paragraphs, once more *)

Lemma nl_to_space_no_nl (s : str) : no_nl (nl_to_space s).
Proof.
  unfold no_nl, nl_to_space. intros H. apply in_map_iff in H as (c & E & _).
  destruct (chr_eqb c nl) eqn:Ec; [discriminate|].
  apply chr_eqb_neq in Ec. congruence.
Qed.

Lemma nl_to_space_id (s : str) : no_nl s -> nl_to_space s = s.
Proof.
  unfold nl_to_space. induction s as [|c s IH]; intros H; [reflexivity|].
  apply no_nl_cons in H as [Hc Hs]. simpl.
  apply chr_eqb_neq in Hc. rewrite Hc. now rewrite IH.
Qed.

Lemma wrap_paragraph_eq (p : str) :
  wrap_paragraph p =
  match Py.strip p with
  | [] => None
  | _ :: _ =>
      if Py.startswith (L "<h") (Py.strip p) || Py.startswith (L "<ul") (Py.strip p)
         || Py.startswith (L "<ol") (Py.strip p)
      then Some (Py.strip p)
      else Some (paragraph (nl_to_space (Py.strip p)))
  end.
Proof.
  unfold wrap_paragraph, paragraph.
  destruct (Py.strip p) as [|c q]; [reflexivity|].
  destruct (_ || _ || _); [reflexivity|].
  unfold sub. simpl Nat.eqb. cbv iota. now rewrite sub_newline_from.
Qed.

(** X13: every block that the paragraph loop produces starts with
    [<], and a block it wrapped in a paragraph element holds no
    newline; paragraphs that are empty once stripped produce
    nothing. *)
Theorem X13_blocks (paragraphs : list str) :
  Forall (fun q => Py.startswith (L "<") q = true
                   /\ (Py.startswith (L "<p>") q = true -> no_nl q))
         (wrap_paragraphs paragraphs)
  /\ length (wrap_paragraphs paragraphs) =
     length (filter (fun p => negb (str_eqb (Py.strip p) [])) paragraphs).
Proof.
  induction paragraphs as [|p ps [IH1 IH2]]; [split; [constructor|reflexivity]|].
  cbn [wrap_paragraphs filter]. rewrite wrap_paragraph_eq.
  destruct (Py.strip p) as [|c q] eqn:E; [split; assumption|].
  simpl str_eqb. simpl negb. cbv iota.
  destruct (Py.startswith (L "<h") (c :: q)) eqn:Eh.
  { simpl orb. cbv iota. split; [|simpl; now rewrite IH2].
    constructor; [|exact IH1]. simpl in Eh. 
    destruct (chr_eqb "<" c) eqn:Ec; [|discriminate]. apply chr_eqb_eq in Ec. subst c.
    split; [reflexivity|]. simpl. destruct q as [|d q]; [discriminate|].
    simpl in Eh. destruct (chr_eqb "h" d) eqn:Ed; [|discriminate].
    apply chr_eqb_eq in Ed. subst d. discriminate. }
  destruct (Py.startswith (L "<ul") (c :: q)) eqn:Eu.
  { simpl orb. cbv iota. split; [|simpl; now rewrite IH2].
    constructor; [|exact IH1]. simpl in Eu.
    destruct (chr_eqb "<" c) eqn:Ec; [|discriminate]. apply chr_eqb_eq in Ec. subst c.
    split; [reflexivity|]. simpl. destruct q as [|d q]; [discriminate|].
    simpl in Eu. destruct (chr_eqb "u" d) eqn:Ed; [|discriminate].
    apply chr_eqb_eq in Ed. subst d. discriminate. }
  destruct (Py.startswith (L "<ol") (c :: q)) eqn:Eo.
  { simpl orb. cbv iota. split; [|simpl; now rewrite IH2].
    constructor; [|exact IH1]. simpl in Eo.
    destruct (chr_eqb "<" c) eqn:Ec; [|discriminate]. apply chr_eqb_eq in Ec. subst c.
    split; [reflexivity|]. simpl. destruct q as [|d q]; [discriminate|].
    simpl in Eo. destruct (chr_eqb "o" d) eqn:Ed; [|discriminate].
    apply chr_eqb_eq in Ed. subst d. discriminate. }
  simpl orb. cbv iota. split; [|simpl; now rewrite IH2].
  constructor; [|exact IH1]. split; [reflexivity|]. intros _.
  unfold paragraph. apply no_nl_app. split; [now apply no_nl_check|].
  apply no_nl_app. split; [apply nl_to_space_no_nl|now apply no_nl_check].
Qed.

(** ** A document of plain paragraphs *)

Lemma chr_eqb_sym (a b : ascii) : chr_eqb a b = chr_eqb b a.
Proof.
  destruct (chr_eqb a b) eqn:E.
  - apply chr_eqb_eq in E. subst. symmetry. apply chr_eqb_refl.
  - symmetry. apply chr_eqb_neq. apply chr_eqb_neq in E. congruence.
Qed.

Lemma startswith_strip_prefix (p s : str) :
  Py.startswith p s = false -> strip_prefix p s = None.
Proof.
  revert s. induction p as [|a p IH]; intros s H; [discriminate|].
  destruct s as [|b s]; [reflexivity|]. simpl in *.
  rewrite (chr_eqb_sym b a). destruct (chr_eqb a b); [now apply IH|reflexivity].
Qed.

Lemma strip_prefix_seq (a b s : str) :
  strip_prefix (a ++ b) s =
  match strip_prefix a s with
  | Some u => strip_prefix b u
  | None => None
  end.
Proof.
  revert s. induction a as [|c a IH]; intros s; [reflexivity|].
  destruct s as [|d s]; [reflexivity|]. simpl.
  destruct (chr_eqb d c); [apply IH|reflexivity].
Qed.

(** A first line that does not start with three hyphens opens no
    front-matter. *)
Lemma no_frontmatter (l rest : str) :
  Py.startswith (L "---") l = false -> no_nl l -> line_end rest ->
  strip_frontmatter (l ++ rest) = l ++ rest.
Proof.
  intros Hs Hl Hr. rewrite strip_frontmatter_eq. unfold frontmatter_rest.
  change fence with (L "---" ++ [nl]). rewrite strip_prefix_seq.
  rewrite strip_prefix_line; [|now apply no_nl_check|exact Hr].
  now rewrite (startswith_strip_prefix _ _ Hs).
Qed.

Lemma header_line_other (l : str) :
  Py.startswith (L "#") l = false -> header_line l = l.
Proof.
  intros H. destruct l as [|d l]; [reflexivity|].
  simpl in H. rewrite andb_true_r in H. rewrite chr_eqb_sym in H.
  assert (Hc : forall marker open close,
             header_conv ("#"%char :: marker) open close (d :: l) = d :: l).
  { intros. unfold header_conv, header_text. simpl strip_prefix. now rewrite H. }
  unfold header_line.
  change (L "#### ") with ("#"%char :: L "### ").
  change (L "### ") with ("#"%char :: L "## ").
  change (L "## ") with ("#"%char :: L "# ").
  change (L "# ") with ("#"%char :: L " ").
  now rewrite !Hc.
Qed.

Lemma lines_line (l s : str) :
  no_nl l -> lines (l ++ nl :: s) = l :: lines s.
Proof.
  induction l as [|c l IH]; intros H.
  - simpl app. rewrite lines_cons. now rewrite chr_eqb_refl.
  - apply no_nl_cons in H as [Hc Hl]. simpl app. rewrite lines_cons.
    apply chr_eqb_neq in Hc. rewrite Hc. now rewrite IH.
Qed.

Lemma lines_one (l : str) : no_nl l -> lines l = [l].
Proof.
  induction l as [|c l IH]; intros H; [reflexivity|].
  apply no_nl_cons in H as [Hc Hl]. rewrite lines_cons.
  apply chr_eqb_neq in Hc. rewrite Hc. now rewrite IH.
Qed.

Lemma join_blank_cons (p q : str) (ps : list str) :
  Py.join blank_line (p :: q :: ps) =
  p ++ nl :: nl :: Py.join blank_line (q :: ps).
Proof. reflexivity. Qed.

Lemma lines_join_blank (P : str -> Prop) (ps : list str) :
  ps <> [] -> P [] -> Forall no_nl ps -> Forall P ps ->
  Forall P (lines (Py.join blank_line ps)).
Proof.
  intros Hne Hnil Hn Hp. induction ps as [|p ps IH]; [congruence|].
  inversion Hn as [|? ? Hnp Hnps]; inversion Hp as [|? ? Hpp Hpps]; subst.
  destruct ps as [|q ps].
  - simpl. rewrite lines_one by exact Hnp. now constructor.
  - rewrite join_blank_cons.
    rewrite lines_line by exact Hnp. constructor; [exact Hpp|].
    change (nl :: Py.join blank_line (q :: ps))
      with ([] ++ nl :: Py.join blank_line (q :: ps)).
    rewrite lines_line by (intros []). constructor; [exact Hnil|].
    apply IH; auto. discriminate.
Qed.

Lemma convert_headers_other (text : str) :
  Forall (fun l => Py.startswith (L "#") l = false) (lines text) ->
  convert_headers text = text.
Proof.
  intros H. rewrite convert_headers_text.
  rewrite <- (unlines_lines text) at 2. f_equal.
  induction H as [|l ls Hl _ IH]; [reflexivity|].
  simpl. rewrite IH. now rewrite header_line_other.
Qed.

(** *** The scan of [re.split] *)

Section SplitFacts.

Variable fl : flags.
Variable r : regex.

Lemma split_from_skip (m s cur : str) (prev : option ascii) :
  split_from fl r (length m) cur prev (m ++ s) =
  split_from fl r 0 cur (after m prev) s.
Proof.
  revert prev. induction m as [|c m IH]; intros prev; simpl.
  - destruct s; reflexivity.
  - apply IH.
Qed.

Lemma split_from_keep (c : ascii) (s cur : str) (prev : option ascii) :
  exec fl r prev (c :: s) = None ->
  split_from fl r 0 cur prev (c :: s) = split_from fl r 0 (c :: cur) (Some c) s.
Proof. intros H. simpl. now rewrite H. Qed.

Lemma split_from_match (m s cur : str) (g : caps) (prev : option ascii) :
  m <> [] ->
  exec fl r prev (m ++ s) = Some (m, g) ->
  split_from fl r 0 cur prev (m ++ s) =
  rev cur :: split_from fl r 0 [] (after m prev) s.
Proof.
  intros Hm H. destruct m as [|c m]; [congruence|].
  simpl app in *. simpl split_from. rewrite H. f_equal.
  apply (split_from_skip m s [] (Some c)).
Qed.

Lemma split_from_copy (x s cur : str) (prev : option ascii) :
  (forall x1 c x2, x = x1 ++ c :: x2 ->
     exec fl r (after x1 prev) (c :: x2 ++ s) = None) ->
  split_from fl r 0 cur prev (x ++ s) =
  split_from fl r 0 (rev x ++ cur) (after x prev) s.
Proof.
  revert prev cur. induction x as [|c x IH]; intros prev cur H.
  - reflexivity.
  - simpl app. rewrite split_from_keep by (apply (H [] c x); reflexivity).
    rewrite IH.
    + simpl rev. now rewrite <- app_assoc.
    + intros x1 d x2 E. apply (H (c :: x1) d x2). now rewrite E.
Qed.

End SplitFacts.

Lemma exec_blank_miss (prev : option ascii) (d : ascii) (s : str) :
  d <> nl -> exec no_flags re_blank prev (d :: s) = None.
Proof.
  intros H. apply chr_eqb_neq in H.
  unfold exec, re_blank, seq. cbn [fold_right run atom_ok]. now rewrite H.
Qed.

Lemma space_nl (c : ascii) : Py.is_space c = false -> c <> nl.
Proof. intros H ->. discriminate H. Qed.

(** One empty line before a paragraph is one separator. *)
Lemma exec_blank_pair (prev : option ascii) (c : ascii) (s : str) :
  Py.is_space c = false ->
  exec no_flags re_blank prev ([nl; nl] ++ c :: s) = Some ([nl; nl], []).
Proof.
  intros Hc. pose proof (space_nl Hc) as Hn. apply chr_eqb_neq in Hn.
  unfold exec, re_blank, seq. cbn [fold_right run app atom_ok rep].
  rewrite !chr_eqb_refl. change (Py.is_space nl) with true. cbv iota.
  rewrite Hc. cbn [rev app]. now rewrite Hn.
Qed.

(** *** What a plain line is made of *)

Lemma plain_line_parts (t : str) :
  plain_line t = true ->
  inline_free t = true /\ no_nl t
  /\ Py.startswith (L "#") t = false
  /\ Py.startswith (L "---") t = false
  /\ (Py.startswith (L "<h") t || Py.startswith (L "<ul") t
      || Py.startswith (L "<ol") t) = false
  /\ trimmed t = true.
Proof.
  unfold plain_line. intros H.
  repeat (apply andb_true_iff in H as [H ?]).
  repeat split; auto using no_nl_check; now apply negb_true_iff.
Qed.

Lemma trimmed_head (t : str) :
  trimmed t = true -> exists c s, t = c :: s /\ Py.is_space c = false.
Proof.
  unfold trimmed. destruct t as [|c s]; [discriminate|]. intros H.
  apply andb_true_iff in H as [H _]. exists c, s. split; [reflexivity|].
  now apply negb_true_iff.
Qed.

Lemma trimmed_last (t : str) :
  trimmed t = true -> exists c s, rev t = c :: s /\ Py.is_space c = false.
Proof.
  unfold trimmed. intros H. apply andb_true_iff in H as [_ H].
  destruct (rev t) as [|c s]; [discriminate|]. exists c, s. split; [reflexivity|].
  now apply negb_true_iff.
Qed.

Lemma lstrip_head (c : ascii) (s : str) :
  Py.is_space c = false -> Py.lstrip (c :: s) = c :: s.
Proof. intros H. simpl. now rewrite H. Qed.

(** Text that begins and ends with a character that is no whitespace
    is its own stripped form. *)
Lemma strip_fixed (t : str) (a b : ascii) (s1 s2 : str) :
  t = a :: s1 -> rev t = b :: s2 ->
  Py.is_space a = false -> Py.is_space b = false ->
  Py.strip t = t.
Proof.
  intros E1 E2 Ha Hb. unfold Py.strip, Py.rstrip.
  rewrite E1 at 1. rewrite lstrip_head by exact Ha. rewrite <- E1.
  rewrite E2. rewrite lstrip_head by exact Hb. rewrite <- E2.
  apply rev_involutive.
Qed.

Lemma strip_trimmed (t : str) : trimmed t = true -> Py.strip t = t.
Proof.
  intros H. destruct (trimmed_head _ H) as (a & s1 & E1 & Ha).
  destruct (trimmed_last _ H) as (b & s2 & E2 & Hb).
  now apply (strip_fixed E1 E2).
Qed.

Lemma join_head (sep s : str) (c : ascii) (ps : list str) :
  exists s', Py.join sep ((c :: s) :: ps) = c :: s'.
Proof. destruct ps; simpl; eauto. Qed.

Lemma join_last (sep : str) (ps : list str) :
  ps <> [] -> exists pre, Py.join sep ps = pre ++ last ps [].
Proof.
  induction ps as [|p ps IH]; [congruence|]. intros _.
  destruct ps as [|q ps]; [now exists []|].
  destruct IH as [pre E]; [discriminate|].
  exists (p ++ sep ++ pre). change (last (p :: q :: ps) []) with (last (q :: ps) []).
  change (Py.join sep (p :: q :: ps)) with (p ++ sep ++ Py.join sep (q :: ps)).
  rewrite E. now rewrite <- !app_assoc.
Qed.

Lemma forallb_join (f : ascii -> bool) (sep : str) (ps : list str) :
  forallb f sep = true -> Forall (fun p => forallb f p = true) ps ->
  forallb f (Py.join sep ps) = true.
Proof.
  intros Hs H. induction H as [|p ps Hp _ IH]; [reflexivity|].
  destruct ps as [|q ps]; [exact Hp|].
  change (Py.join sep (p :: q :: ps)) with (p ++ sep ++ Py.join sep (q :: ps)).
  rewrite !forallb_app. now rewrite Hp, Hs, IH.
Qed.

Lemma split_plain (ps : list str) (prev : option ascii) :
  ps <> [] -> Forall (fun p => plain_line p = true) ps ->
  split_from no_flags re_blank 0 [] prev (Py.join blank_line ps) = ps.
Proof.
  intros Hne H. revert prev. induction H as [|p ps Hp Hps IH]; [congruence|].
  intros prev. apply plain_line_parts in Hp as (_ & Hn & _).
  assert (Hcopy : forall s cur pv,
             split_from no_flags re_blank 0 cur pv (p ++ s) =
             split_from no_flags re_blank 0 (rev p ++ cur) (after p pv) s).
  { intros s cur pv. apply split_from_copy. intros x1 d x2 E.
    apply exec_blank_miss. intros ->. apply Hn. rewrite E.
    apply in_or_app. right. now left. }
  destruct ps as [|q ps].
  - simpl Py.join. rewrite <- (app_nil_r p) at 1. rewrite Hcopy. simpl.
    now rewrite app_nil_r, rev_involutive.
  - rewrite join_blank_cons. rewrite Hcopy. rewrite app_nil_r.
    inversion Hps as [|? ? Hq _]; subst.
    apply plain_line_parts in Hq as (_ & _ & _ & _ & _ & Ht).
    destruct (trimmed_head _ Ht) as (c & s & -> & Hc).
    destruct (join_head blank_line s c ps) as [s' Es].
    change (nl :: nl :: Py.join blank_line ((c :: s) :: ps))
      with ([nl; nl] ++ Py.join blank_line ((c :: s) :: ps)).
    rewrite Es. rewrite split_from_match with (g := []);
      [|discriminate|now apply exec_blank_pair].
    rewrite rev_involutive. f_equal. rewrite <- Es.
    apply IH. discriminate.
Qed.

Lemma wrap_plain (ps : list str) :
  Forall (fun p => plain_line p = true) ps ->
  wrap_paragraphs ps = map paragraph ps.
Proof.
  intros H. induction H as [|p ps Hp _ IH]; [reflexivity|].
  cbn [wrap_paragraphs map]. rewrite wrap_paragraph_eq.
  apply plain_line_parts in Hp as (_ & Hn & _ & _ & Hb & Ht).
  rewrite (strip_trimmed _ Ht). rewrite Hb.
  destruct (trimmed_head _ Ht) as (c & s & -> & _).
  now rewrite IH, nl_to_space_id.
Qed.

Lemma inline_free_join (ps : list str) :
  Forall (fun p => plain_line p = true) ps ->
  inline_free (Py.join blank_line ps) = true.
Proof.
  intros H. apply forallb_join; [reflexivity|].
  eapply Forall_impl; [|exact H]. intros q Hq.
  now apply plain_line_parts in Hq.
Qed.

(** X14: a document of plain one-line paragraphs separated by one
    empty line renders as the same paragraphs, each in one paragraph
    element with its text copied as it is, joined by the separator of
    the source. *)
Theorem X14_plain_document (ps : list str) :
  ps <> [] -> forallb plain_line ps = true ->
  markdown_to_html (Py.join blank_line ps) =
  Py.join separator (map paragraph ps).
Proof.
  intros Hne Hall. 
  assert (H : Forall (fun p => plain_line p = true) ps).
  { apply Forall_forall. now apply forallb_forall. }
  assert (Hnl : Forall no_nl ps).
  { eapply Forall_impl; [|exact H]. intros p Hp. now apply plain_line_parts in Hp. }
  destruct ps as [|p ps]; [congruence|].
  inversion H as [|? ? Hp Hps]; subst.
  pose proof (plain_line_parts _ Hp) as (_ & Hn & _ & Hf & _ & Ht).
  unfold markdown_to_html.
  (* no front-matter *)
  assert (E1 : strip_frontmatter (Py.join blank_line (p :: ps))
               = Py.join blank_line (p :: ps)).
  { destruct ps as [|q ps].
    - simpl Py.join. rewrite <- (app_nil_r p). apply no_frontmatter; auto. now left.
    - rewrite join_blank_cons. apply no_frontmatter; auto. right. eauto. }
  rewrite E1.
  (* no header *)
  rewrite convert_headers_other.
  2:{ apply lines_join_blank; auto.
      eapply Forall_impl; [|exact H]. intros q Hq.
      now apply plain_line_parts in Hq. }
  (* no inline construct *)
  fold (convert_code (convert_links (convert_emphasis (Py.join blank_line (p :: ps))))).
  rewrite inline_unchanged by now apply inline_free_join.
  (* nothing to strip *)
  assert (E2 : Py.strip (Py.join blank_line (p :: ps)) = Py.join blank_line (p :: ps)).
  { destruct (trimmed_head _ Ht) as (a & s1 & Ea & Ha).
    destruct (join_last blank_line (ps := p :: ps)) as [pre Ep]; [discriminate|].
    assert (Hl : plain_line (last (p :: ps) []) = true).
    { rewrite Forall_forall in H. apply H.
      apply (@exists_last _ (p :: ps)) in Hne as (l' & y & El).
      rewrite El, last_last. apply in_or_app. right. now left. }
    apply plain_line_parts in Hl as (_ & _ & _ & _ & _ & Hl).
    destruct (trimmed_last _ Hl) as (b & s2 & Eb & Hb).
    destruct (join_head blank_line s1 a ps) as [s' Es]. subst p.
    eapply strip_fixed; [exact Es| |exact Ha|exact Hb].
    rewrite Ep, rev_app_distr, Eb. reflexivity. }
  rewrite E2. unfold split. rewrite split_plain; auto.
  now rewrite wrap_plain.
Qed.

Lemma X14_plain_document_witness :
  markdown_to_html (Py.join blank_line [L "First < paragraph."; L "Second & last."]) =
  Py.join separator (map paragraph [L "First < paragraph."; L "Second & last."]).
Proof.
  apply (@X14_plain_document [L "First < paragraph."; L "Second & last."]).
  - discriminate.
  - reflexivity.
Defined.

(** ** A blank document *)

Lemma lines_forallb (f : ascii -> bool) (t : str) :
  forallb f t = true -> Forall (fun l => forallb f l = true) (lines t).
Proof.
  induction t as [|c t IH]; intros H.
  - repeat constructor.
  - simpl in H. apply andb_true_iff in H as [Hc Ht]. specialize (IH Ht).
    rewrite lines_cons. destruct (chr_eqb c nl); [now constructor|].
    destruct (lines t) as [|l ls]; [repeat constructor; simpl; now rewrite Hc|].
    inversion IH; subst. constructor; [simpl; now rewrite Hc|assumption].
Qed.

Lemma space_first (p t : str) (d : ascii) :
  Py.is_space d = false -> forallb Py.is_space t = true ->
  Py.startswith (d :: p) t = false.
Proof.
  intros Hd Ht. destruct t as [|c t]; [reflexivity|]. simpl in *.
  apply andb_true_iff in Ht as [Hc _].
  replace (chr_eqb d c) with false; [reflexivity|].
  symmetry. apply chr_eqb_neq. intros ->. congruence.
Qed.

Lemma lstrip_blank (t : str) : forallb Py.is_space t = true -> Py.lstrip t = [].
Proof.
  induction t as [|c t IH]; [reflexivity|]. simpl. intros H.
  apply andb_true_iff in H as [Hc Ht]. rewrite Hc. now apply IH.
Qed.

(** X15: a document that is empty or holds only whitespace renders as
    the empty fragment. *)
Theorem X15_blank_document (t : str) :
  forallb Py.is_space t = true -> markdown_to_html t = [].
Proof.
  intros H. unfold markdown_to_html.
  assert (E1 : strip_frontmatter t = t).
  { rewrite strip_frontmatter_eq. unfold frontmatter_rest.
    change fence with (L "---" ++ [nl]). rewrite strip_prefix_seq.
    rewrite startswith_strip_prefix; [reflexivity|].
    now apply space_first. }
  rewrite E1. rewrite convert_headers_other.
  2:{ eapply Forall_impl; [|apply (lines_forallb _ _ H)].
      intros l Hl. now apply space_first. }
  fold (convert_code (convert_links (convert_emphasis t))).
  rewrite inline_unchanged.
  2:{ unfold inline_free. rewrite forallb_forall in *. intros c Hc.
      specialize (H c Hc). unfold inline_char.
      destruct (chr_eqb c "*") eqn:E; [apply chr_eqb_eq in E; subst; discriminate|].
      destruct (chr_eqb c "_") eqn:E2; [apply chr_eqb_eq in E2; subst; discriminate|].
      destruct (chr_eqb c "[") eqn:E3; [apply chr_eqb_eq in E3; subst; discriminate|].
      destruct (chr_eqb c "`") eqn:E4; [apply chr_eqb_eq in E4; subst; discriminate|].
      reflexivity. }
  unfold Py.strip. rewrite lstrip_blank by exact H. reflexivity.
Qed.

Lemma X15_blank_document_witness :
  markdown_to_html (nl :: L "  " ++ [nl]) = [].
Proof. apply (@X15_blank_document (nl :: L "  " ++ [nl])). reflexivity. Defined.

(** ** File names, once more *)





(** ** Paths *)

Lemma split_chr_lacks (c : ascii) (s : str) :
  lacks c s -> Py.split_chr c s = [s].
Proof.
  induction s as [|x s IH]; intros H; [reflexivity|]. simpl.
  assert (Hx : chr_eqb x c = false).
  { apply chr_eqb_neq. intros ->. apply H. now left. }
  rewrite Hx. rewrite IH; [reflexivity|]. intros Hin. apply H. now right.
Qed.

Lemma split_chr_not_nil (c : ascii) (s : str) : Py.split_chr c s <> [].
Proof.
  induction s as [|x s IH]; simpl; [discriminate|].
  destruct (chr_eqb x c); [discriminate|].
  destruct (Py.split_chr c s); discriminate.
Qed.

Lemma split_chr_app (c : ascii) (a b : str) :
  Py.split_chr c (a ++ c :: b) = Py.split_chr c a ++ Py.split_chr c b.
Proof.
  induction a as [|x a IH]; simpl.
  - now rewrite chr_eqb_refl.
  - destruct (chr_eqb x c); [now rewrite IH|]. rewrite IH.
    pose proof (split_chr_not_nil c a) as Hn.
    destruct (Py.split_chr c a); [congruence|reflexivity].
Qed.

Lemma rfind_lacks (c : ascii) (s : str) : lacks c s -> Py.rfind c s = None.
Proof.
  induction s as [|x s IH]; intros H; [reflexivity|]. simpl.
  rewrite IH by (intros Hin; apply H; now right).
  replace (chr_eqb x c) with false; [reflexivity|].
  symmetry. apply chr_eqb_neq. intros ->. apply H. now left.
Qed.

Lemma rfind_last (c : ascii) (a b : str) :
  lacks c b -> Py.rfind c (a ++ c :: b) = Some (length a).
Proof.
  intros Hb. induction a as [|x a IH]; simpl.
  - rewrite rfind_lacks by exact Hb. now rewrite chr_eqb_refl.
  - now rewrite IH.
Qed.

(** The name of a file in a directory, and its stem. *)
Lemma path_stem_file (dir name ext : str) :
  name <> [] -> ext <> [] ->
  lacks "/" name -> lacks "." name -> lacks "/" ext -> lacks "." ext ->
  Py.path_stem (dir ++ "/"%char :: name ++ "."%char :: ext) = name.
Proof.
  intros Hn He Hsn Hdn Hse Hde.
  assert (Hfile : lacks "/" (name ++ "."%char :: ext)).
  { apply lacks_app. split; [exact Hsn|]. intros [E|Hin]; [discriminate|auto]. }
  assert (Hk : Py.is_dot_or_empty (name ++ "."%char :: ext) = false).
  { destruct name as [|a name]; [congruence|]. simpl.
    destruct name; reflexivity. }
  assert (Hname : Py.path_name (dir ++ "/"%char :: name ++ "."%char :: ext)
                  = name ++ "."%char :: ext).
  { unfold Py.path_name. rewrite split_chr_app, (split_chr_lacks Hfile).
    rewrite filter_app. cbn [filter]. rewrite Hk. simpl negb. cbv iota.
    apply last_last. }
  unfold Py.path_stem. rewrite Hname. cbv zeta.
  rewrite rfind_last by exact Hde.
  rewrite length_app. simpl length.
  destruct name as [|a name]; [congruence|]. destruct ext as [|b ext]; [congruence|].
  replace ((0 <? length (a :: name))
           && (length (a :: name) <? length (a :: name) + S (length (b :: ext)) - 1))
    with true.
  - rewrite firstn_app, Nat.sub_diag, firstn_O, app_nil_r. apply firstn_all.
  - symmetry. apply andb_true_iff. split; apply Nat.ltb_lt; simpl; lia.
Qed.

(** X17: the title made from a path depends only on the stem of its
    last component: the directories before it and the extension after
    its last dot play no part. *)
Theorem X17_title_of_path (dir name ext : str) :
  name <> [] -> ext <> [] ->
  lacks "/" name -> lacks "." name -> lacks "/" ext -> lacks "." ext ->
  title_from_filename (dir ++ "/"%char :: name ++ "."%char :: ext) =
  Py.title (Py.replace "_" " " (Py.replace "-" " " name)).
Proof.
  intros. unfold title_from_filename. now rewrite path_stem_file.
Qed.

Lemma X17_title_of_path_witness :
  title_from_filename (L "drafts/2026" ++ "/"%char :: L "my-first_essay" ++ "."%char :: L "md") =
  Py.title (Py.replace "_" " " (Py.replace "-" " " (L "my-first_essay"))).
Proof.
  apply (@X17_title_of_path (L "drafts/2026") (L "my-first_essay") (L "md"));
    try discriminate; apply lacks_check; reflexivity.
Defined.

(** ** From file name to title and back *)








Lemma case_keeps_sep (c : ascii) :
  (Py.lower_chr c = "-"%char -> c = "-"%char)
  /\ (Py.upper_chr c = "-"%char -> c = "-"%char)
  /\ (Py.lower_chr c = "_"%char -> c = "_"%char)
  /\ (Py.upper_chr c = "_"%char -> c = "_"%char).
Proof.
  destruct c as [[|] [|] [|] [|] [|] [|] [|] [|]];
    repeat split; intros H; (reflexivity || discriminate H).
Qed.

Lemma title_from_lacks (d : ascii) (b : bool) (s : str) :
  d = "-"%char \/ d = "_"%char -> lacks d s -> lacks d (Py.title_from b s).
Proof.
  intros Hd. revert b. induction s as [|c s IH]; intros b H; [intros []|].
  simpl. intros [E|Hin].
  - apply H. left.
    destruct (case_keeps_sep c) as (H1 & H2 & H3 & H4).
    destruct Hd as [-> | ->]; destruct b; auto.
  - apply (IH (Py.is_cased c)); [|exact Hin]. intros Hs. apply H. now right.
Qed.

Lemma replace_lacks (old new : ascii) (s : str) :
  new <> old -> lacks old (Py.replace old new s).
Proof.
  intros Hn Hin. unfold Py.replace in Hin. apply in_map_iff in Hin as (c & E & _).
  destruct (chr_eqb c old) eqn:Ec; [congruence|].
  apply chr_eqb_neq in Ec. congruence.
Qed.

Lemma replace_keeps_lacks (d old new : ascii) (s : str) :
  new <> d -> lacks d s -> lacks d (Py.replace old new s).
Proof.
  intros Hn Hs Hin. unfold Py.replace in Hin. apply in_map_iff in Hin as (c & E & Hc).
  destruct (chr_eqb c old); [congruence|]. subst. now apply Hs.
Qed.

(** X19: the title made from a file name holds neither hyphen nor
    underscore. *)
Theorem X19_title_separators (filename : str) :
  lacks "-" (title_from_filename filename)
  /\ lacks "_" (title_from_filename filename).
Proof.
  unfold title_from_filename, Py.title. split.
  - apply title_from_lacks; [now left|].
    apply replace_keeps_lacks; [discriminate|]. apply replace_lacks. discriminate.
  - apply title_from_lacks; [now right|]. apply replace_lacks. discriminate.
Qed.

(** ** main, once more *)

Lemma str_eqb_eq (a b : str) : str_eqb a b = true <-> a = b.
Proof.
  split; [|intros ->; apply str_eqb_refl].
  revert b. induction a as [|x a IH]; intros [|y b] H; try discriminate; auto.
  simpl in H. apply andb_true_iff in H as [H1 H2].
  apply chr_eqb_eq in H1. subst. f_equal. now apply IH.
Qed.

(** X20: called without a file argument, the program prints its three
    usage lines and ends with exit status 1; it touches no file and
    runs no command. *)
Theorem X20_usage (tpl : template) (script_dir : str) (argv : list str) (w : world) :
  length argv < 2 ->
  exists w',
    main tpl script_dir argv w = (Exit 1, w')
    /\ files w' = files w /\ commands w' = commands w
    /\ printed w' =
       printed w ++
       [L "Usage: ./publish.py <markdown-file> [title]";
        L "Example: ./publish.py drafts/my-essay.md";
        L "         ./publish.py drafts/my-essay.md " ++ dquote :: L "My Custom Title"
          ++ [dquote]].
Proof.
  intros H. destruct argv as [|a [|b argv]]; [| |simpl in H; lia];
    (eexists; split; [reflexivity|]); simpl; rewrite <- !app_assoc; auto.
Qed.

Lemma X20_usage_witness :
  exists w',
    main (Template [] [] [] [] []) (L ".") [L "./publish.py"] (World [] [] []) = (Exit 1, w')
    /\ files w' = [] /\ commands w' = []
    /\ printed w' =
       [] ++
       [L "Usage: ./publish.py <markdown-file> [title]";
        L "Example: ./publish.py drafts/my-essay.md";
        L "         ./publish.py drafts/my-essay.md " ++ dquote :: L "My Custom Title"
          ++ [dquote]].
Proof.
  apply (@X20_usage (Template [] [] [] [] []) (L ".") [L "./publish.py"] (World [] [] [])).
  simpl. lia.
Defined.

Lemma path_join_differs (dir a b c : str) (x y : ascii) :
  x <> y -> Py.path_join (Py.path_join dir (x :: a)) b <> Py.path_join dir (y :: c).
Proof.
  unfold Py.path_join. intros Hxy E. rewrite <- !app_assoc in E.
  apply app_inv_head in E. simpl in E. inversion E. congruence.
Qed.

(** X21: when the input path is a file that reads as UTF-8 text, the
    [essays] directory exists and the output path [essays/<slug>.html]
    is not a directory, and the write and the print succeed, the
    program writes the page for the resolved title and the converted
    content to the output path, replacing a file that was there,
    leaves every other path as it was, prints the line that names the
    output file, runs the update script if and only if that script
    exists, and ends with exit status 0. *)
Theorem X21_publish (tpl : template) (script_dir prog md_file md_content : str)
    (more : list str) (w : world) :
  let title := fst (get_title (hd_error more) md_file md_content) in
  let body := snd (get_title (hd_error more) md_file md_content) in
  let essays_dir := Py.path_join script_dir (L "essays") in
  let output_file := Py.path_join essays_dir (filename_from_title title) in
  let update_script := Py.path_join script_dir (L "update-essays.sh") in
  lookup md_file (files w) = Some (File md_content) ->
  lookup essays_dir (files w) = Some Directory ->
  lookup output_file (files w) <> Some Directory ->
  exists w',
    main tpl script_dir (prog :: md_file :: more) w = (Exit 0, w')
    /\ lookup output_file (files w') =
       Some (File (create_essay_html tpl title (markdown_to_html body) default_date))
    /\ (forall path, path <> output_file ->
          lookup path (files w') = lookup path (files w))
    /\ printed w' = printed w ++ [created_mark ++ L " Created: " ++ output_file]
    /\ commands w' =
       if exists_ update_script w
       then commands w ++ [dquote :: update_script ++ [dquote]]
       else commands w.
Proof.
  intros title body essays_dir output_file update_script Hin Hdir Hout.
  unfold main, exists_. rewrite Hin. simpl negb. cbv iota.
  destruct (get_title (hd_error more) md_file md_content) as [t b] eqn:Eg.
  simpl in title, body. subst title body.
  fold essays_dir. fold output_file. fold update_script. rewrite Hdir.
  assert (Hup : lookup update_script
                  (files (print (created_mark ++ L " Created: " ++ output_file)
                            (write output_file
                               (create_essay_html tpl t (markdown_to_html b) default_date) w)))
                = lookup update_script (files w)).
  { simpl. destruct (str_eqb output_file update_script) eqn:E; [|reflexivity].
    apply str_eqb_eq in E. exfalso. revert E. apply path_join_differs. discriminate. }
  assert (Hgoal : exists w',
    (Exit 0,
     if match lookup update_script
                (files (print (created_mark ++ L " Created: " ++ output_file)
                          (write output_file
                             (create_essay_html tpl t (markdown_to_html b) default_date) w)))
        with Some _ => true | None => false end
     then system (dquote :: update_script ++ [dquote])
            (print (created_mark ++ L " Created: " ++ output_file)
               (write output_file
                  (create_essay_html tpl t (markdown_to_html b) default_date) w))
     else print (created_mark ++ L " Created: " ++ output_file)
            (write output_file
               (create_essay_html tpl t (markdown_to_html b) default_date) w))
    = (Exit 0, w')
    /\ lookup output_file (files w') =
       Some (File (create_essay_html tpl t (markdown_to_html b) default_date))
    /\ (forall path, path <> output_file ->
          lookup path (files w') = lookup path (files w))
    /\ printed w' = printed w ++ [created_mark ++ L " Created: " ++ output_file]
    /\ commands w' =
       if match lookup update_script (files w) with Some _ => true | None => false end
       then commands w ++ [dquote :: update_script ++ [dquote]]
       else commands w).
  { rewrite Hup. destruct (lookup update_script (files w));
      (eexists; split; [reflexivity|]); simpl; rewrite str_eqb_refl;
      (repeat split; auto); intros path Hp;
      (destruct (str_eqb output_file path) eqn:E; [|reflexivity]);
      apply str_eqb_eq in E; congruence. }
  destruct (lookup output_file (files w)) as [[c|]|]; try congruence; exact Hgoal.
Qed.

Lemma X21_publish_witness :
  exists w',
    main (Template [] [] [] [] []) (L ".") [L "./publish.py"; L "draft.md"]
         (World [(L "draft.md", File (L "# Hi" ++ nl :: L "text"));
                 (L "./essays", Directory)] [] []) = (Exit 0, w')
    /\ lookup (L "./essays/hi.html") (files w') =
       Some (File (create_essay_html (Template [] [] [] [] []) (L "Hi")
                     (markdown_to_html (L "text")) default_date))
    /\ (forall path, path <> L "./essays/hi.html" ->
          lookup path (files w') =
          lookup path [(L "draft.md", File (L "# Hi" ++ nl :: L "text"));
                       (L "./essays", Directory)])
    /\ printed w' = [] ++ [created_mark ++ L " Created: " ++ L "./essays/hi.html"]
    /\ commands w' = [].
Proof.
  apply (@X21_publish (Template [] [] [] [] []) (L ".") (L "./publish.py") (L "draft.md")
           (L "# Hi" ++ nl :: L "text") []
           (World [(L "draft.md", File (L "# Hi" ++ nl :: L "text"));
                   (L "./essays", Directory)] [] []));
    [reflexivity | reflexivity | discriminate].
Defined.

(** X22: the program never creates the [essays] directory: when it is
    missing, opening the output file fails, the run ends with an
    uncaught error, and nothing is written, printed or run. *)
Theorem X22_no_essays_directory (tpl : template)
    (script_dir prog md_file md_content : str) (more : list str) (w : world) :
  lookup md_file (files w) = Some (File md_content) ->
  lookup (Py.path_join script_dir (L "essays")) (files w) = None ->
  main tpl script_dir (prog :: md_file :: more) w = (Uncaught (L "FileNotFoundError"), w).
Proof.
  intros Hin Hdir. unfold main, exists_. rewrite Hin. simpl negb. cbv iota.
  destruct (get_title (hd_error more) md_file md_content) as [t b].
  now rewrite Hdir.
Qed.

Lemma X22_no_essays_directory_witness :
  main (Template [] [] [] [] []) (L ".") [L "./publish.py"; L "draft.md"]
       (World [(L "draft.md", File (L "text"))] [] [])
  = (Uncaught (L "FileNotFoundError"), World [(L "draft.md", File (L "text"))] [] []).
Proof.
  apply (@X22_no_essays_directory (Template [] [] [] [] []) (L ".") (L "./publish.py")
           (L "draft.md") (L "text") [] (World [(L "draft.md", File (L "text"))] [] []));
    reflexivity.
Defined.

(** ** Headers in the rendered fragment *)

(** X23: a text none of whose lines starts with a hash is left
    unchanged by the header substitutions: a hash inside a line never
    makes a header. *)
Theorem X23_no_header (text : str) :
  Forall (fun l => Py.startswith (L "#") l = false) (lines text) ->
  convert_headers text = text.
Proof. apply convert_headers_other. Qed.

Lemma X23_no_header_witness :
  convert_headers (L "issue #1" ++ nl :: L "see ## below") =
  L "issue #1" ++ nl :: L "see ## below".
Proof.
  apply (@X23_no_header (L "issue #1" ++ nl :: L "see ## below")).
  repeat constructor.
Defined.

Lemma split_one_line (t : str) :
  no_nl t -> split re_blank t no_flags = [t].
Proof.
  intros Hn. unfold split. rewrite <- (app_nil_r t) at 1.
  rewrite split_from_copy.
  - simpl. now rewrite app_nil_r, rev_involutive.
  - intros x1 d x2 E. apply exec_blank_miss. intros ->. apply Hn. rewrite E.
    apply in_or_app. right. now left.
Qed.

Lemma heading_shape (n : nat) (t : str) :
  1 <= n <= 4 ->
  exists s, heading n t = "<"%char :: "h"%char :: s
            /\ rev (heading n t) = ">"%char :: rev ("<"%char :: "h"%char :: removelast s).
Proof.
  intros Hn. unfold heading.
  exists (digit n :: L ">" ++ t ++ L "</h" ++ digit n :: L ">"). split; [reflexivity|].
  change ("<"%char :: "h"%char :: removelast (digit n :: L ">" ++ t ++ L "</h" ++ digit n :: L ">"))
    with (removelast ("<"%char :: "h"%char :: digit n :: L ">" ++ t ++ L "</h" ++ digit n :: L ">")).
  assert (E : L "<h" ++ digit n :: L ">" ++ t ++ L "</h" ++ digit n :: L ">"
              = (L "<h" ++ digit n :: L ">" ++ t ++ L "</h" ++ [digit n]) ++ [">"%char]).
  { simpl. repeat (rewrite <- app_assoc; simpl). reflexivity. }
  change ("<"%char :: "h"%char :: digit n :: L ">" ++ t ++ L "</h" ++ digit n :: L ">")
    with (L "<h" ++ digit n :: L ">" ++ t ++ L "</h" ++ digit n :: L ">").
  rewrite E. rewrite removelast_last, rev_app_distr. reflexivity.
Qed.

(** X24: a document that is one header line, of one to four hashes, a
    blank and a text without inline constructs, renders as the header
    element of that level alone: it is not wrapped in a paragraph
    element. *)
Theorem X24_header_document (n : nat) (t : str) :
  1 <= n <= 4 -> t <> [] -> no_nl t -> inline_free t = true ->
  markdown_to_html (marked n t) = heading n t.
Proof.
  intros Hn Ht Hnl Hfree. unfold markdown_to_html.
  assert (Hm : no_nl (marked n t)).
  { unfold marked. apply no_nl_app. split.
    - intros Hin. apply repeat_spec in Hin. discriminate.
    - apply no_nl_cons. split; [discriminate|exact Hnl]. }
  assert (E1 : strip_frontmatter (marked n t) = marked n t).
  { rewrite <- (app_nil_r (marked n t)). apply no_frontmatter; auto; [|now left].
    destruct n as [|n]; [lia|]. reflexivity. }
  rewrite E1.
  assert (E2 : convert_headers (marked n t) = heading n t).
  { change (marked n t) with (unlines [marked n t]).
    rewrite convert_headers_lines; [|discriminate|now repeat constructor].
    simpl map. change (unlines [header_line (marked n t)]) with (header_line (marked n t)).
    now apply header_line_marked. }
  rewrite E2.
  assert (Hh : no_nl (heading n t)).
  { destruct n as [|[|[|[|[|n]]]]]; try lia; unfold heading; simpl;
      repeat (apply no_nl_cons; split; [intros E; vm_compute in E; discriminate E|]);
      (apply no_nl_app; split; [exact Hnl|now apply no_nl_check]). }
  fold (convert_code (convert_links (convert_emphasis (heading n t)))).
  rewrite inline_unchanged.
  2:{ unfold heading, inline_free. rewrite !forallb_app. cbn [forallb].
      rewrite !forallb_app. cbn [forallb]. unfold inline_free in Hfree. rewrite Hfree.
      destruct n as [|[|[|[|[|n]]]]]; try lia; reflexivity. }
  destruct (heading_shape t Hn) as (s & Es & Er).
  assert (E3 : Py.strip (heading n t) = heading n t).
  { eapply strip_fixed; [exact Es|exact Er|reflexivity|reflexivity]. }
  rewrite E3, split_one_line by exact Hh.
  cbn [wrap_paragraphs]. rewrite wrap_paragraph_eq, E3. rewrite Es. reflexivity.
Qed.

Lemma X24_header_document_witness :
  markdown_to_html (marked 2 (L "Part one")) = heading 2 (L "Part one").
Proof.
  apply (@X24_header_document 2 (L "Part one"));
    [lia | discriminate | apply no_nl_check; reflexivity | reflexivity].
Defined.

(** ** Emphasis, line by line *)

Lemma rep_ext (fl : flags) (R : Type) (a : atom) (gr : bool) (k k' : cont R)
    (s : str) (min : nat) (acc : str) (prev : option ascii) (g : caps) :
  (forall m p s' g', k m p s' g' = k' m p s' g') ->
  rep fl a gr k min acc prev s g = rep fl a gr k' min acc prev s g.
Proof.
  intros H. revert min acc prev. induction s as [|c s IH]; intros min acc prev.
  - destruct min, gr; simpl; now rewrite ?H.
  - destruct min as [|min]; simpl.
    + destruct gr; rewrite !H, !IH; reflexivity.
    + now rewrite IH.
Qed.

(** The emphasis pattern, read off the matcher: the marker, a lazy
    stretch of at least one character, the marker. *)
Lemma exec_emphasis_eq (marker : str) (prev : option ascii) (s : str) :
  exec no_flags (re_emphasis marker) prev s =
  match strip_prefix marker s with
  | Some u => rep no_flags Dot false (closer marker) 1 [] (after marker prev) u []
  | None => None
  end.
Proof.
  unfold exec, re_emphasis, seq. cbn [fold_right run]. rewrite run_lit.
  destruct (strip_prefix marker s) as [u|]; [|reflexivity].
  apply rep_ext. intros m p s' g'. rewrite run_lit. unfold closer.
  destruct (strip_prefix marker s'); [|reflexivity].
  cbn [run]. now rewrite app_nil_r.
Qed.

Lemma rep_closer_prev (marker : str) (s : str) (min : nat) (acc : str)
    (prev prev' : option ascii) (g : caps) :
  rep no_flags Dot false (closer marker) min acc prev s g =
  rep no_flags Dot false (closer marker) min acc prev' s g.
Proof.
  revert min acc prev prev'. induction s as [|c s IH]; intros min acc prev prev'.
  - destruct min; reflexivity.
  - destruct min as [|min]; simpl.
    + unfold closer at 1 3. destruct (strip_prefix marker (c :: s)); reflexivity.
    + reflexivity.
Qed.

(** The pattern has no anchor: what stands before the position does
    not matter. *)
Lemma exec_emphasis_prev (marker : str) (prev prev' : option ascii) (s : str) :
  exec no_flags (re_emphasis marker) prev s =
  exec no_flags (re_emphasis marker) prev' s.
Proof.
  rewrite !exec_emphasis_eq. destruct (strip_prefix marker s); [|reflexivity].
  apply rep_closer_prev.
Qed.

Lemma rep_closer_local (marker u rest : str) (min : nat) (acc : str)
    (prev : option ascii) (g : caps) :
  marker <> [] -> no_nl marker -> no_nl u ->
  rep no_flags Dot false (closer marker) min acc prev (u ++ nl :: rest) g =
  rep no_flags Dot false (closer marker) min acc prev u g.
Proof.
  intros Hne Hm. revert min acc prev. induction u as [|d u IH]; intros min acc prev Hu.
  - destruct marker as [|c m]; [congruence|]. apply no_nl_cons in Hm as [Hc _].
    apply not_eq_sym in Hc. apply chr_eqb_neq in Hc.
    destruct min as [|min]; [|reflexivity].
    simpl. unfold closer. simpl. now rewrite Hc.
  - apply no_nl_cons in Hu as [Hd Hu]. apply chr_eqb_neq in Hd.
    destruct min as [|min]; simpl.
    + unfold closer at 1 3.
      change (d :: u ++ nl :: rest) with ((d :: u) ++ nl :: rest).
      rewrite strip_prefix_line; [|exact Hm|right; eauto].
      destruct (strip_prefix marker (d :: u)); [reflexivity|].
      simpl. rewrite Hd. simpl. now apply IH.
    + rewrite Hd. simpl. now apply IH.
Qed.

(** A match lies within its line. *)
Lemma exec_emphasis_local (marker l rest : str) (prev : option ascii) :
  marker <> [] -> no_nl marker -> no_nl l ->
  exec no_flags (re_emphasis marker) prev (l ++ nl :: rest) =
  exec no_flags (re_emphasis marker) prev l.
Proof.
  intros Hne Hm Hl. rewrite !exec_emphasis_eq.
  rewrite strip_prefix_line; [|exact Hm|right; eauto].
  destruct (strip_prefix marker l) as [u|] eqn:E; [|reflexivity]. simpl.
  apply rep_closer_local; auto.
  apply strip_prefix_Some in E. subst l. now apply no_nl_app in Hl.
Qed.

(** What a match is: the two markers around a non-empty inner text
    without newline, at the head of the text. *)
Lemma exec_emphasis_sound (marker s m : str) (g : caps) (prev : option ascii) :
  exec no_flags (re_emphasis marker) prev s = Some (m, g) ->
  exists x v,
    x <> [] /\ no_nl x /\ m = marker ++ x ++ marker /\ g = [(1, x)]
    /\ s = m ++ v.
Proof.
  rewrite exec_emphasis_eq.
  destruct (strip_prefix marker s) as [u|] eqn:Eu; [|discriminate].
  apply strip_prefix_Some in Eu. intros H.
  apply rep_sound in H as (t & rest & p & E & Ht & Hl & Hk).
  unfold closer in Hk.
  destruct (strip_prefix marker rest) as [v|] eqn:Ev; [|discriminate].
  apply strip_prefix_Some in Ev. inversion Hk; subst. simpl.
  exists t, v. repeat split.
  - intros ->. simpl in Hl. lia.
  - intros Hin. rewrite Forall_forall in Ht. specialize (Ht _ Hin).
    cbv in Ht. discriminate Ht.
  - now rewrite <- !app_assoc.
Qed.

Section EmphasisLines.

Variable marker open close : str.
Hypothesis marker_not_nil : marker <> [].
Hypothesis marker_no_nl : no_nl marker.
Hypothesis open_no_nl : no_nl open.
Hypothesis close_no_nl : no_nl close.

(** One step of the scan at a non-empty text. *)
Lemma sub_emphasis_step (prev : option ascii) (d : ascii) (s : str) :
  (exists x v,
      x <> [] /\ no_nl x /\ d :: s = (marker ++ x ++ marker) ++ v
      /\ exec no_flags (re_emphasis marker) prev (d :: s)
         = Some (marker ++ x ++ marker, [(1, x)])
      /\ sub_from no_flags (re_emphasis marker) (tagged open close) None 0 prev (d :: s)
         = (open ++ x ++ close)
             ++ sub_from no_flags (re_emphasis marker) (tagged open close) None 0
                  (after (marker ++ x ++ marker) prev) v)
  \/ (exec no_flags (re_emphasis marker) prev (d :: s) = None
      /\ sub_from no_flags (re_emphasis marker) (tagged open close) None 0 prev (d :: s)
         = d :: sub_from no_flags (re_emphasis marker) (tagged open close) None 0 (Some d) s).
Proof.
  destruct (exec no_flags (re_emphasis marker) prev (d :: s)) as [[m g]|] eqn:E.
  - left. pose proof E as E'.
    apply exec_emphasis_sound in E' as (x & v & Hx & Hn & -> & -> & Es).
    exists x, v. repeat split; auto. rewrite Es in *.
    rewrite sub_from_match with (g := [(1, x)]); auto.
    + now rewrite expand_tagged.
    + destruct marker; [congruence|discriminate].
  - right. split; [reflexivity|]. now apply sub_from_keep.
Qed.

Lemma sub_emphasis_nil (prev : option ascii) :
  sub_from no_flags (re_emphasis marker) (tagged open close) None 0 prev [] = [].
Proof.
  apply sub_from_end. rewrite exec_emphasis_eq.
  destruct marker; [congruence|reflexivity].
Qed.

Lemma sub_emphasis_prev (s : str) (prev prev' : option ascii) :
  sub_from no_flags (re_emphasis marker) (tagged open close) None 0 prev s =
  sub_from no_flags (re_emphasis marker) (tagged open close) None 0 prev' s.
Proof.
  remember (length s) as n eqn:Hn. revert s prev prev' Hn.
  induction n as [n IH] using lt_wf_ind. intros s prev prev' Hn.
  destruct s as [|d s]; [now rewrite !sub_emphasis_nil|].
  destruct (sub_emphasis_step prev d s)
    as [(x & v & Hx & _ & Es & Ee & ->)|[Ee ->]];
    rewrite (exec_emphasis_prev marker prev prev') in Ee;
    destruct (sub_emphasis_step prev' d s)
      as [(x' & v' & _ & _ & Es' & Ee' & ->)|[Ee' ->]]; try congruence.
  rewrite Ee in Ee'. inversion Ee'; subst x'.
    rewrite Es in Es'. apply app_inv_head in Es'. subst v'. f_equal.
    eapply IH; [|reflexivity]. subst n. rewrite Es, !length_app.
    destruct marker; [congruence|]. simpl. lia.
Qed.

(** The scan of a line does not look beyond its newline, and resumes
    after it. *)
Lemma sub_emphasis_line (l rest : str) (prev : option ascii) :
  no_nl l ->
  sub_from no_flags (re_emphasis marker) (tagged open close) None 0 prev (l ++ nl :: rest) =
  sub_from no_flags (re_emphasis marker) (tagged open close) None 0 None l
    ++ nl :: sub_from no_flags (re_emphasis marker) (tagged open close) None 0 None rest.
Proof.
  remember (length l) as n eqn:Hn. revert l prev Hn.
  induction n as [n IH] using lt_wf_ind. intros l prev Hn Hl.
  destruct l as [|d l].
  - rewrite sub_emphasis_nil. simpl app.
    rewrite sub_from_keep.
    + f_equal. apply sub_emphasis_prev.
    + rewrite exec_emphasis_eq. destruct marker as [|c m]; [congruence|].
      apply no_nl_cons in marker_no_nl as [Hc _].
      apply not_eq_sym in Hc. apply chr_eqb_neq in Hc. simpl. now rewrite Hc.
  - pose proof (exec_emphasis_local rest prev marker_not_nil marker_no_nl Hl) as Eloc.
    cbn [app] in *.
    destruct (sub_emphasis_step None d l)
      as [(x & v & Hx & Hnx & Es & Ee & ->)|[Ee ->]].
    + rewrite (exec_emphasis_prev marker None prev) in Ee. rewrite <- Eloc in Ee.
      assert (Es2 : d :: l ++ nl :: rest = (marker ++ x ++ marker) ++ v ++ nl :: rest).
      { change (d :: l ++ nl :: rest) with ((d :: l) ++ nl :: rest).
        rewrite Es. now rewrite <- !app_assoc. }
      rewrite Es2 in *.
      rewrite sub_from_match with (g := [(1, x)]); auto.
      2:{ destruct marker; [congruence|discriminate]. }
      rewrite expand_tagged. rewrite <- !app_assoc. do 3 f_equal.
      rewrite (IH (length v)) with (prev := after (marker ++ x ++ marker) prev); auto.
      * f_equal. apply sub_emphasis_prev.
      * subst n. rewrite Es, !length_app. destruct marker; [congruence|]. simpl. lia.
      * rewrite Es in Hl. now apply no_nl_app in Hl.
    + rewrite (exec_emphasis_prev marker None prev) in Ee. rewrite <- Eloc in Ee.
      rewrite sub_from_keep by exact Ee. simpl. f_equal.
      apply no_nl_cons in Hl as [_ Hl].
      rewrite (sub_emphasis_prev l (Some d) None).
      eapply IH; [|reflexivity|exact Hl]. subst n. simpl. lia.
Qed.

(** The result of a line is a line. *)
Lemma sub_emphasis_no_nl (l : str) (prev : option ascii) :
  no_nl l ->
  no_nl (sub_from no_flags (re_emphasis marker) (tagged open close) None 0 prev l).
Proof.
  remember (length l) as n eqn:Hn. revert l prev Hn.
  induction n as [n IH] using lt_wf_ind. intros l prev Hn Hl.
  destruct l as [|d l]; [rewrite sub_emphasis_nil; intros []|].
  destruct (sub_emphasis_step prev d l)
    as [(x & v & Hx & Hnx & Es & Ee & ->)|[Ee ->]].
  - repeat (apply no_nl_app; split); auto.
    eapply IH; [|reflexivity|].
    + subst n. rewrite Es, !length_app. destruct marker; [congruence|]. simpl. lia.
    + rewrite Es in Hl. now apply no_nl_app in Hl.
  - apply no_nl_cons in Hl as [Hd Hl]. apply no_nl_cons. split; [exact Hd|].
    eapply IH; [|reflexivity|exact Hl]. subst n. simpl. lia.
Qed.

(** One emphasis substitution works line by line. *)
Lemma sub_emphasis_lines (ls : list str) :
  ls <> [] -> Forall no_nl ls ->
  sub (re_emphasis marker) (tagged open close) (unlines ls) 0 no_flags =
  unlines (map (fun l => sub (re_emphasis marker) (tagged open close) l 0 no_flags) ls).
Proof.
  intros Hne H. unfold sub. simpl Nat.eqb. cbv iota.
  induction H as [|l ls Hl Hls IH]; [congruence|].
  destruct ls as [|l2 ls]; [reflexivity|].
  rewrite unlines_cons. simpl map. rewrite unlines_cons.
  rewrite sub_emphasis_line by exact Hl. do 2 f_equal.
  apply IH. discriminate.
Qed.

Lemma sub_emphasis_lines_no_nl (ls : list str) :
  Forall no_nl ls ->
  Forall no_nl (map (fun l => sub (re_emphasis marker) (tagged open close) l 0 no_flags) ls).
Proof.
  intros H. induction H; simpl; constructor; auto.
  unfold sub. simpl Nat.eqb. cbv iota. now apply sub_emphasis_no_nl.
Qed.

End EmphasisLines.

Lemma convert_emphasis_lines (ls : list str) :
  ls <> [] -> Forall no_nl ls ->
  convert_emphasis (unlines ls) = unlines (map convert_emphasis ls).
Proof.
  intros Hne Hls. unfold convert_emphasis.
  assert (Hc : forall s : string,
             forallb (fun c => negb (chr_eqb c nl)) (L s) = true -> no_nl (L s))
    by (intros; now apply no_nl_check).
  rewrite sub_emphasis_lines; [|discriminate|now apply no_nl_check|exact Hne|exact Hls].
  rewrite sub_emphasis_lines;
    [|discriminate|now apply no_nl_check|now apply map_not_nil|].
  2:{ apply sub_emphasis_lines_no_nl; auto; try discriminate; now apply no_nl_check. }
  rewrite sub_emphasis_lines;
    [|discriminate|now apply no_nl_check|now repeat apply map_not_nil|].
  2:{ repeat (apply sub_emphasis_lines_no_nl; auto; try discriminate;
              try (now apply no_nl_check)). }
  rewrite sub_emphasis_lines;
    [|discriminate|now apply no_nl_check|now repeat apply map_not_nil|].
  2:{ repeat (apply sub_emphasis_lines_no_nl; auto; try discriminate;
              try (now apply no_nl_check)). }
  rewrite sub_emphasis_lines;
    [|discriminate|now apply no_nl_check|now repeat apply map_not_nil|].
  2:{ repeat (apply sub_emphasis_lines_no_nl; auto; try discriminate;
              try (now apply no_nl_check)). }
  rewrite sub_emphasis_lines;
    [|discriminate|now apply no_nl_check|now repeat apply map_not_nil|].
  2:{ repeat (apply sub_emphasis_lines_no_nl; auto; try discriminate;
              try (now apply no_nl_check)). }
  rewrite !map_map. reflexivity.
Qed.

Lemma convert_emphasis_text (text : str) :
  convert_emphasis text = unlines (map convert_emphasis (lines text)).
Proof.
  rewrite <- (unlines_lines text) at 1.
  apply convert_emphasis_lines; [apply lines_not_nil|apply lines_no_nl].
Qed.

Section EmphasisThen.

Variable c : ascii.
Variable marker open close : str.
Hypothesis marker_head : exists marker', marker = c :: marker'.
Hypothesis marker_no_nl : no_nl marker.

(** Text without the marker character is passed over, whatever
    follows. *)
Lemma sub_emphasis_copy_then (pre post : str) :
  lacks c pre ->
  sub (re_emphasis marker) (tagged open close) (pre ++ post) 0 no_flags =
  pre ++ sub (re_emphasis marker) (tagged open close) post 0 no_flags.
Proof.
  intros H. destruct marker_head as [marker' E].
  pose proof marker_no_nl as Hm. rewrite E in Hm |- *.
  unfold sub. simpl Nat.eqb. cbv iota.
  rewrite sub_emphasis_copy by exact H. f_equal.
  apply sub_emphasis_prev; [discriminate|exact Hm].
Qed.

(** A span is replaced, whatever follows. *)
Lemma sub_emphasis_span_then (pre x post : str) :
  x <> [] -> no_nl x -> lacks c x -> lacks c pre ->
  sub (re_emphasis marker) (tagged open close)
      (pre ++ marker ++ x ++ marker ++ post) 0 no_flags =
  pre ++ (open ++ x ++ close)
    ++ sub (re_emphasis marker) (tagged open close) post 0 no_flags.
Proof.
  intros Hx Hn Hc Hpre. destruct marker_head as [marker' E].
  pose proof marker_no_nl as Hm. rewrite E in Hm |- *.
  unfold sub. simpl Nat.eqb. cbv iota.
  rewrite sub_emphasis_copy by exact Hpre. f_equal.
  replace ((c :: marker') ++ x ++ (c :: marker') ++ post)
    with (((c :: marker') ++ x ++ (c :: marker')) ++ post)
    by now rewrite <- !app_assoc.
  rewrite sub_from_match with (g := [(1, x)]);
    [|discriminate|now apply exec_emphasis_span].
  rewrite expand_tagged. f_equal.
  apply sub_emphasis_prev; [discriminate|exact Hm].
Qed.

(** A span in fewer marker characters than the pattern asks for is
    passed over, when no marker character follows it. *)
Lemma sub_emphasis_short_then (j : nat) (pre x post : str) :
  marker = repeat c (length marker) -> j < length marker ->
  x <> [] -> lacks c pre -> lacks c x -> lacks c (firstn 1 post) ->
  sub (re_emphasis marker) (tagged open close)
      (pre ++ repeat c j ++ x ++ repeat c j ++ post) 0 no_flags =
  (pre ++ repeat c j ++ x ++ repeat c j)
    ++ sub (re_emphasis marker) (tagged open close) post 0 no_flags.
Proof.
  intros Em Hj Hx Hpre Hcx Hpost. destruct marker_head as [marker' E].
  pose proof marker_no_nl as Hm.
  set (k := length marker) in *. rewrite Em in Hm |- *.
  assert (Hk : repeat c k = c :: repeat c (k - 1)).
  { destruct k as [|k]; [lia|]. simpl. now rewrite Nat.sub_0_r. }
  assert (Hnn : repeat c k <> []) by (rewrite Hk; discriminate).
  unfold sub. simpl Nat.eqb. cbv iota.
  rewrite Hk at 1. rewrite sub_emphasis_copy by exact Hpre. rewrite <- Hk.
  rewrite sub_emphasis_run; [|exact Hj|].
  2:{ destruct x as [|d x]; [congruence|]. intros [Ed|[]]. apply Hcx. now left. }
  rewrite Hk at 1. rewrite sub_emphasis_copy by exact Hcx. rewrite <- Hk.
  rewrite sub_emphasis_run; [|exact Hj|exact Hpost].
  rewrite <- !app_assoc. do 4 f_equal.
  apply sub_emphasis_prev; [exact Hnn|exact Hm].
Qed.

End EmphasisThen.

Lemma lines_break (a b : str) : lines (a ++ nl :: b) = lines a ++ lines b.
Proof.
  induction a as [|c a IH].
  - simpl app. rewrite lines_cons. now rewrite chr_eqb_refl.
  - simpl app. rewrite !lines_cons. rewrite IH.
    destruct (chr_eqb c nl); [reflexivity|].
    pose proof (lines_not_nil a) as Hn.
    destruct (lines a) as [|l ls]; [congruence|reflexivity].
Qed.

Lemma unlines_app (la lb : list str) :
  la <> [] -> lb <> [] ->
  unlines (la ++ lb) = unlines la ++ nl :: unlines lb.
Proof.
  intros Ha Hb. induction la as [|l la IH]; [congruence|].
  destruct la as [|l2 la].
  - destruct lb as [|l3 lb]; [congruence|]. simpl app. now rewrite unlines_cons.
  - change ((l :: l2 :: la) ++ lb) with (l :: l2 :: la ++ lb).
    rewrite !unlines_cons. rewrite <- app_assoc. simpl app. f_equal. f_equal.
    apply IH. discriminate.
Qed.

(** Emphasis never crosses a line break: the text on either side of
    one is converted on its own. *)
Lemma convert_emphasis_break (a b : str) :
  convert_emphasis (a ++ nl :: b) =
  convert_emphasis a ++ nl :: convert_emphasis b.
Proof.
  rewrite (convert_emphasis_text (a ++ nl :: b)).
  rewrite lines_break, map_app.
  rewrite unlines_app by (apply map_not_nil; apply lines_not_nil).
  now rewrite <- !convert_emphasis_text.
Qed.

Lemma whole_lines_cases (t : str) :
  whole_lines t = true -> t = [] \/ exists a, t = a ++ [nl].
Proof.
  unfold whole_lines. intros H.
  rewrite <- (rev_involutive t). destruct (rev t) as [|c r]; [now left|].
  right. exists (rev r). simpl. apply chr_eqb_eq in H. now subst c.
Qed.

(** Text appended to whole lines is converted on its own. *)
Lemma convert_emphasis_below (above rest : str) :
  whole_lines above = true ->
  convert_emphasis (above ++ rest) =
  convert_emphasis above ++ convert_emphasis rest.
Proof.
  intros H. apply whole_lines_cases in H as [->|[a ->]]; [reflexivity|].
  rewrite <- app_assoc. simpl app.
  rewrite !convert_emphasis_break. now rewrite <- app_assoc.
Qed.


(** *** Runs of spans *)

Lemma plain_spec (t : str) :
  plain t = true -> no_nl t /\ lacks "*" t /\ lacks "_" t.
Proof.
  unfold plain. intros H. rewrite forallb_forall in H. repeat split.
  - intros Hin. specialize (H _ Hin). now rewrite chr_eqb_refl in H.
  - intros Hin. specialize (H _ Hin).
    rewrite chr_eqb_refl in H. now rewrite orb_true_r in H.
  - intros Hin. specialize (H _ Hin).
    rewrite chr_eqb_refl in H. now rewrite orb_true_r in H.
Qed.

Lemma plain_marker (u : bool) (t : str) :
  plain t = true -> lacks (marker_chr u) t.
Proof. intros H. apply plain_spec in H. destruct u; simpl; tauto. Qed.

Lemma starts_plain_first (u : bool) (t : str) :
  starts_plain t = true -> lacks (marker_chr u) (firstn 1 t).
Proof.
  destruct t as [|d t]; intros H; [intros []|].
  simpl in H. intros [E|[]]. subst d.
  destruct u; simpl in H; now rewrite ?chr_eqb_refl, ?orb_true_r in H.
Qed.

Lemma nonempty_spec (t : str) : nonempty t = true -> t <> [].
Proof. destruct t; [discriminate|discriminate]. Qed.

Lemma marker_of_head (u : bool) (w : weight) :
  exists marker', marker_of u w = marker_chr u :: marker'.
Proof. destruct w; eexists; reflexivity. Qed.

Lemma marker_of_no_nl (u : bool) (w : weight) : no_nl (marker_of u w).
Proof. apply no_nl_check. destruct u, w; reflexivity. Qed.

Lemma tags_lack (u : bool) (w : weight) :
  lacks (marker_chr u) (fst (tags w)) /\ lacks (marker_chr u) (snd (tags w)).
Proof. split; apply lacks_check; destruct u, w; reflexivity. Qed.

(** One substitution passes over text without its marker character. *)
Lemma stage_copy (u : bool) (w : weight) (t rest : str) :
  lacks (marker_chr u) t ->
  stage u w (t ++ rest) = t ++ stage u w rest.
Proof.
  intros H. unfold stage.
  apply sub_emphasis_copy_then with (c := marker_chr u);
    [apply marker_of_head|apply marker_of_no_nl|exact H].
Qed.

(** It replaces a span in its own marker. *)
Lemma stage_hit (u : bool) (w : weight) (pre x rest : str) :
  plain pre = true -> plain x = true -> x <> [] ->
  stage u w (pre ++ marker_of u w ++ x ++ marker_of u w ++ rest) =
  pre ++ (fst (tags w) ++ x ++ snd (tags w)) ++ stage u w rest.
Proof.
  intros Hp Hx Hne. unfold stage.
  apply sub_emphasis_span_then with (c := marker_chr u);
    [apply marker_of_head|apply marker_of_no_nl|exact Hne| |
     now apply plain_marker|now apply plain_marker].
  now apply plain_spec in Hx.
Qed.

(** It passes over a span in fewer marker characters, when no marker
    character follows the span. *)
Lemma stage_short (u : bool) (w w' : weight) (pre x rest : str) :
  marker_length w' < marker_length w ->
  plain pre = true -> plain x = true -> x <> [] ->
  lacks (marker_chr u) (firstn 1 rest) ->
  stage u w (pre ++ marker_of u w' ++ x ++ marker_of u w' ++ rest) =
  (pre ++ marker_of u w' ++ x ++ marker_of u w') ++ stage u w rest.
Proof.
  intros Hl Hp Hx Hne Hr. unfold stage.
  assert (El : length (marker_of u w) = marker_length w)
    by apply repeat_length.
  apply sub_emphasis_short_then with (c := marker_chr u);
    [apply marker_of_head|apply marker_of_no_nl| | |exact Hne| | |exact Hr].
  - rewrite El. reflexivity.
  - now rewrite El.
  - now apply plain_marker.
  - now apply plain_marker.
Qed.

Lemma rendered_lacks (u : bool) (sp : span) :
  plain (before sp) = true -> plain (inner sp) = true ->
  lacks (marker_chr u) (rendered sp).
Proof.
  intros Hp Hx. unfold rendered. destruct (tags_lack u (form sp)).
  repeat (apply lacks_app; split); auto using plain_marker.
Qed.

(** One substitution on a span in the state the earlier ones have
    left it in. *)
Lemma stage_step (u : bool) (w : weight) (sp : span) (rest : str) :
  plain (before sp) = true -> plain (inner sp) = true -> inner sp <> [] ->
  (form sp = BoldItalic \/ lacks (marker_chr u) (firstn 1 rest)) ->
  stage u w (shown (stage_of u w) sp ++ rest) =
  shown (S (stage_of u w)) sp ++ stage u w rest.
Proof.
  intros Hp Hx Hne Hadj.
  pose proof (fun u' => rendered_lacks u' sp Hp Hx) as Hr.
  destruct sp as [pre us ws x]. simpl in Hp, Hx, Hne, Hadj.
  assert (Hw : forall u' : bool, u' <> us ->
            lacks (marker_chr u') (written (Span pre us ws x))).
  { intros u' Hu. unfold written. simpl.
    repeat (apply lacks_app; split); auto using plain_marker;
      apply lacks_check; destruct u', us, ws; try congruence; reflexivity. }
  destruct u, w, us, ws; unfold shown; cbn [stage_of underscore form marker_length
    Nat.add Nat.sub Nat.ltb Nat.leb];
    try (apply stage_copy; apply Hr);
    try (apply stage_copy; apply Hw; discriminate);
    try (unfold written, rendered; cbn [before underscore form inner];
         rewrite <- ?app_assoc; rewrite stage_hit by assumption;
         now rewrite <- ?app_assoc);
    try (unfold written; cbn [before underscore form inner];
         rewrite <- ?app_assoc;
         rewrite stage_short; [now rewrite <- ?app_assoc|simpl; lia|assumption..|];
         destruct Hadj as [Hadj|Hadj]; [discriminate|exact Hadj]).
Qed.

Lemma shown_starts (n : nat) (sp : span) (rest : str) (u : bool) :
  plain (before sp) = true -> nonempty (before sp) = true ->
  lacks (marker_chr u) (firstn 1 (shown n sp ++ rest)).
Proof.
  intros Hp Hn. apply plain_marker with (u := u) in Hp.
  unfold shown, rendered, written.
  destruct (before sp) as [|d pre]; [discriminate|].
  destruct (_ <? _); simpl; intros [E|[]]; apply Hp; now left.
Qed.

Lemma spans_ok_cons (sp : span) (rest : list span) (post : str) :
  spans_ok (sp :: rest) post = true ->
  (plain (before sp) = true /\ plain (inner sp) = true /\ inner sp <> [])
  /\ (form sp = BoldItalic
      \/ match rest with
         | [] => starts_plain post = true
         | next :: _ => plain (before next) = true /\ nonempty (before next) = true
         end)
  /\ spans_ok rest post = true.
Proof.
  cbn [spans_ok]. intros H.
  apply andb_true_iff in H as [H Hrest].
  apply andb_true_iff in H as [H Hadj].
  apply andb_true_iff in H as [H Hne].
  apply andb_true_iff in H as [Hp Hx].
  split; [repeat split; auto; now apply nonempty_spec|]. split; [|exact Hrest].
  destruct (form sp); auto; right; destruct rest as [|next rest]; auto;
    (split; [|exact Hadj]); cbn [spans_ok] in Hrest;
    repeat (apply andb_true_iff in Hrest as [Hrest _]); exact Hrest.
Qed.

(** One substitution on a run of spans in the state the earlier ones
    have left them in: every span is taken one step further, and the
    substitution goes on in what follows the run. *)
Lemma stage_spans (u : bool) (w : weight) (spans : list span) (post0 post : str) :
  spans_ok spans post0 = true ->
  (starts_plain post0 = true -> starts_plain post = true) ->
  stage u w (concat (map (shown (stage_of u w)) spans) ++ post) =
  concat (map (shown (S (stage_of u w))) spans) ++ stage u w post.
Proof.
  intros Hok Hpost. induction spans as [|sp rest IH]; [reflexivity|].
  apply spans_ok_cons in Hok as ((Hp & Hx & Hne) & Hadj & Hrest).
  cbn [map concat]. rewrite <- !app_assoc.
  rewrite stage_step; [now rewrite IH|exact Hp|exact Hx|exact Hne|].
  destruct Hadj as [Hadj|Hadj]; [now left|right].
  destruct rest as [|next rest].
  - simpl. apply starts_plain_first. auto.
  - cbn [map concat]. rewrite <- app_assoc. now apply shown_starts.
Qed.

Lemma starts_plain_stage (u : bool) (w : weight) (t : str) :
  starts_plain t = true -> starts_plain (stage u w t) = true.
Proof.
  intros H. destruct t as [|d t]; [destruct u, w; reflexivity|].
  change (d :: t) with ([d] ++ t). rewrite stage_copy; [exact H|].
  now apply (starts_plain_first u [d]).
Qed.

Lemma convert_emphasis_stages (html : str) :
  convert_emphasis html =
  stage true Italic (stage true Bold (stage true BoldItalic
    (stage false Italic (stage false Bold (stage false BoldItalic html))))).
Proof. reflexivity. Qed.

(** The six substitutions on a run of spans. *)
Lemma convert_emphasis_spans (spans : list span) (post : str) :
  spans_ok spans post = true ->
  convert_emphasis (concat (map written spans) ++ post) =
  concat (map rendered spans) ++ convert_emphasis post.
Proof.
  intros Hok. rewrite !convert_emphasis_stages.
  change (map written spans) with (map (shown (stage_of false BoldItalic)) spans).
  rewrite (stage_spans false BoldItalic spans post post Hok) by auto.
  change (S (stage_of false BoldItalic)) with (stage_of false Bold).
  rewrite (stage_spans false Bold spans post _ Hok)
    by (intros; auto using starts_plain_stage).
  change (S (stage_of false Bold)) with (stage_of false Italic).
  rewrite (stage_spans false Italic spans post _ Hok)
    by (intros; auto using starts_plain_stage).
  change (S (stage_of false Italic)) with (stage_of true BoldItalic).
  rewrite (stage_spans true BoldItalic spans post _ Hok)
    by (intros; auto using starts_plain_stage).
  change (S (stage_of true BoldItalic)) with (stage_of true Bold).
  rewrite (stage_spans true Bold spans post _ Hok)
    by (intros; auto 7 using starts_plain_stage).
  change (S (stage_of true Bold)) with (stage_of true Italic).
  rewrite (stage_spans true Italic spans post _ Hok)
    by (intros; auto 7 using starts_plain_stage).
  f_equal. f_equal. apply map_ext. intros [pre [|] [| |] x]; reflexivity.
Qed.

(** A span in three marker characters, as it is written and as it is
    rendered. *)
Lemma written_triple (pre x : str) (u : bool) :
  written (Span pre u BoldItalic x) =
  pre ++ (if u then L "___" else L "***") ++ x ++ (if u then L "___" else L "***").
Proof. destruct u; reflexivity. Qed.

Lemma rendered_triple (pre x : str) (u : bool) :
  rendered (Span pre u BoldItalic x) =
  pre ++ L "<strong><em>" ++ x ++ L "</em></strong>".
Proof. reflexivity. Qed.

(** C7, as the code has it.  Below any number of whole lines, a run of
    well-formed spans is converted span by span: each span in three
    asterisks or three underscores becomes the nested strong and
    emphasis elements around its inner text, each span in two marker
    characters a strong element and each span in one an emphasis
    element, and the text that follows the run is converted on its
    own.  Well-formed means that the text before each span and its
    inner text lie on one line and hold neither asterisk nor
    underscore, that the inner text is not empty, and that no marker
    character follows a span in one or two marker characters; what
    follows a span in three is free.  In general the text on either
    side of a line break is converted on its own, so that no span
    runs over a line break. *)
Theorem C7_triple_emphasis (above : str) (spans : list span) (post : str) :
  whole_lines above = true ->
  spans_ok spans post = true ->
  convert_emphasis (above ++ concat (map written spans) ++ post) =
    convert_emphasis above ++ concat (map rendered spans) ++ convert_emphasis post
  /\ (forall a b : str,
        convert_emphasis (a ++ nl :: b) =
        convert_emphasis a ++ nl :: convert_emphasis b).
Proof.
  intros Ha Hs. split; [|apply convert_emphasis_break].
  rewrite convert_emphasis_below by exact Ha.
  now rewrite convert_emphasis_spans.
Qed.

Lemma C7_triple_emphasis_witness :
  convert_emphasis
    (L "# Title" ++ nl ::
     L "Some **bold**, ***both***___again___ and _it_ or ***b*** then *c" ++ nl ::
     L "more _text_") =
  L "# Title" ++ nl ::
  L "Some <strong>bold</strong>, <strong><em>both</em></strong>"
    ++ L "<strong><em>again</em></strong> and <em>it</em> or "
    ++ L "<strong><em>b</em></strong> then *c" ++ nl ::
  L "more <em>text</em>".
Proof.
  exact (proj1 (@C7_triple_emphasis (L "# Title" ++ [nl])
                  [Span (L "Some ") false Bold (L "bold");
                   Span (L ", ") false BoldItalic (L "both");
                   Span [] true BoldItalic (L "again");
                   Span (L " and ") true Italic (L "it");
                   Span (L " or ") false BoldItalic (L "b")]
                  (L " then *c" ++ nl :: L "more _text_")
                  eq_refl eq_refl)).
Defined.
